(** * Sarracen: SPH interpolation onto pixel grids

    A shallow embedding of [sarracen/interpolate.py],
    [sarracen/kernels/base_kernel.py] and [sarracen/kernels/cubic_spline.py].

    Numbers.  Python floats and NumPy [float64] arrays are idealised as real
    numbers ([R]); Python [int]s are [Z].  Rounding error, NaN and infinities
    are therefore outside the model: [x / 0] is some real number, and [sqrt]
    of a negative number is [0] (every such value is discarded by a mask in
    the source before it is used).

    Control.  [@njit] is transparent and a [prange] loop runs its iterations
    in index order.  Exceptions are values of type [exn]; a function that can
    raise returns a [result]. *)

From Stdlib Require Import String.
From Stdlib Require Import Reals Lra Lia ZArith Bool List Permutation.
Import ListNotations.
Open Scope R_scope.

(** ** Python exceptions and results *)

Inductive exn : Type :=
| ValueError (msg : string)
| IndexError (msg : string).

Definition result (A : Type) : Type := (exn + A)%type.

Definition ret {A} (a : A) : result A := inr a.
Definition raise {A} (e : exn) : result A := inl e.

Definition bind {A B} (m : result A) (k : A -> result B) : result B :=
  match m with
  | inl e => inl e
  | inr a => k a
  end.

Notation "x <- m ;; k" := (bind m (fun x => k))
  (at level 61, m at next level, right associativity).

(** A loop whose body may raise. *)
Fixpoint foldM {A S} (body : S -> A -> result S) (l : list A) (s : S)
  : result S :=
  match l with
  | [] => ret s
  | a :: l' => s' <- body s a ;; foldM body l' s'
  end.

(** ** Comparisons of reals as Python booleans *)

Definition Rleb (a b : R) : bool := if Rle_dec a b then true else false.
Definition Rltb (a b : R) : bool := if Rlt_dec a b then true else false.
Definition Reqb (a b : R) : bool := if Req_dec_T a b then true else false.

(** A boolean used as a number ([True] is 1, [False] is 0). *)
Definition b2r (b : bool) : R := if b then 1 else 0.

(** [range(n)] *)
Definition range (n : Z) : list Z :=
  map Z.of_nat (seq 0 (Z.to_nat n)).

(** ** The part of NumPy the sources use *)

Module np.

(** [np.rint]: nearest integer, halves to the even neighbour. *)
Definition rint (x : R) : Z :=
  let f := Int_part x in
  let r := frac_part x in
  if Rlt_dec r (1 / 2) then f
  else if Rlt_dec (1 / 2) r then (f + 1)%Z
  else if Z.even f then f else (f + 1)%Z.

(** [a.clip(a_min, a_max)] is [minimum(a_max, maximum(a, a_min))]. *)
Definition clipZ (a a_min a_max : Z) : Z := Z.min a_max (Z.max a a_min).
Definition clip (a a_min a_max : R) : R := Rmin a_max (Rmax a a_min).

(** [np.arange(lo, hi)] on integers. *)
Definition arange (lo hi : Z) : list Z :=
  map (fun k => (lo + Z.of_nat k)%Z) (seq 0 (Z.to_nat (hi - lo))).

(** [np.zeros(n)] and [np.zeros((rows, cols))]. *)
Definition zeros (n : Z) : result (list R) :=
  if (n <? 0)%Z then raise (ValueError "negative dimensions are not allowed")
  else ret (repeat 0 (Z.to_nat n)).

Definition zeros2 (rows cols : Z) : result (list (list R)) :=
  if ((rows <? 0) || (cols <? 0))%Z
  then raise (ValueError "negative dimensions are not allowed")
  else ret (repeat (repeat 0 (Z.to_nat cols)) (Z.to_nat rows)).

(** [np.linspace(start, stop, num)] (endpoint included). *)
Definition linspace (start stop : R) (num : Z) : result (list R) :=
  if (num <? 0)%Z
  then raise (ValueError "Number of samples must be non-negative.")
  else if (num =? 1)%Z then ret [start]
  else ret (map (fun k => start + IZR k * ((stop - start) / IZR (num - 1)))
                (range num)).

(** [np.interp] at one abscissa, for [xp] and [fp] of one length: the first
    interval [xp[j], xp[j+1]) that holds [x]. *)
Fixpoint interp_search (x : R) (xp fp : list R) : R :=
  match xp, fp with
  | x0 :: ((x1 :: _) as xp'), f0 :: ((f1 :: _) as fp') =>
      if Rltb x x1
      then (if Reqb x x0 then f0 else (f1 - f0) / (x1 - x0) * (x - x0) + f0)
      else interp_search x xp' fp'
  | _, f0 :: _ => f0
  | _, _ => 0
  end.

Definition interp_at (xp fp : list R) (x : R) : R :=
  if Rltb (last xp 0) x then last fp 0
  else if Rltb x (hd 0 xp) then hd 0 fp
  else interp_search x xp fp.

(** [np.interp(x, xp, fp)] for a two-dimensional [x].  The sample arrays are
    checked once, before any abscissa is looked at. *)
Definition interp (x : list (list R)) (xp fp : list R)
  : result (list (list R)) :=
  if (length xp =? 0)%nat
  then raise (ValueError "array of sample points is empty")
  else if negb (length xp =? length fp)%nat
  then raise (ValueError "fp and xp are not of the same length.")
  else ret (map (map (interp_at xp fp)) x).

(** [np.isclose(a, b)] with the default [rtol=1e-05], [atol=1e-08]. *)
Definition rtol : R := 1 / 100000.
Definition atol : R := 1 / 100000000.

Definition isclose (a b : R) : bool :=
  Rleb (Rabs (a - b)) (atol + rtol * Rabs b).

(** [arr[mask]] for a boolean mask. *)
Fixpoint compress {A} (mask : list bool) (arr : list A) : list A :=
  match mask, arr with
  | m :: mask', a :: arr' =>
      if m then a :: compress mask' arr' else compress mask' arr'
  | _, _ => []
  end.

(** Elementwise binary operation on two arrays of one length. *)
Fixpoint map2 {A B C} (f : A -> B -> C) (a : list A) (b : list B) : list C :=
  match a, b with
  | x :: a', y :: b' => f x y :: map2 f a' b'
  | _, _ => []
  end.

(** [row[lo:hi] += vals], where [k] is the index of the head of [row];
    [vals] has [hi - lo] entries in every use. *)
Fixpoint slice_add_from (k lo hi : Z) (vals row : list R) : list R :=
  match row with
  | [] => []
  | v :: row' =>
      (if ((lo <=? k) && (k <? hi))%Z
       then v + nth (Z.to_nat (k - lo)) vals 0
       else v) :: slice_add_from (k + 1) lo hi vals row'
  end.

Definition slice_add (lo hi : Z) (vals row : list R) : list R :=
  slice_add_from 0 lo hi vals row.

(** [image[jlo:jhi, ilo:ihi] += vals] *)
Fixpoint slice_add2_from (k jlo jhi ilo ihi : Z)
         (vals image : list (list R)) : list (list R) :=
  match image with
  | [] => []
  | row :: image' =>
      (if ((jlo <=? k) && (k <? jhi))%Z
       then slice_add ilo ihi (nth (Z.to_nat (k - jlo)) vals []) row
       else row) :: slice_add2_from (k + 1) jlo jhi ilo ihi vals image'
  end.

Definition slice_add2 (jlo jhi ilo ihi : Z) (vals image : list (list R))
  : list (list R) :=
  slice_add2_from 0 jlo jhi ilo ihi vals image.

End np.

(** [arr[i] = v] with Python's index rules: a negative index counts from the
    end, and an index outside the array raises. *)
Fixpoint list_set {A} (l : list A) (n : nat) (v : A) : list A :=
  match l, n with
  | [], _ => []
  | _ :: l', O => v :: l'
  | a :: l', S n' => a :: list_set l' n' v
  end.

Definition setitem (arr : list R) (i : Z) (v : R) : result (list R) :=
  let len := Z.of_nat (length arr) in
  let i' := if (i <? 0)%Z then (i + len)%Z else i in
  if ((0 <=? i') && (i' <? len))%Z
  then ret (list_set arr (Z.to_nat i') v)
  else raise (IndexError "index out of bounds").

(** ** sarracen/kernels/base_kernel.py *)

(** A kernel class: its two static methods. *)
Record Kernel : Type := {
  get_radius : R;
  w : R -> Z -> R
}.

(** The instance attributes of a kernel object. *)
Record KernelState : Type := {
  _ckernel_func_cache : option (list R);
  _column_cache : option (list R)
}.

Module BaseKernel.

Definition __init__ : KernelState :=
  {| _ckernel_func_cache := None; _column_cache := None |}.

Definition class : Kernel :=
  {| get_radius := 1; w := fun _ _ => 1 |}.

(** One pass of the inner loop of [_int_func]. *)
Definition coldens_step (wfunc : R -> Z -> R) (q_xy2 dz : R)
           (coldens : R) (j : Z) : R :=
  let q_z := IZR j * dz in
  let q := sqrt (q_xy2 + q_z * q_z) in
  let y := wfunc q 3%Z in
  if ((j =? 0) || (j =? 99))%Z
  then coldens + 0.5 * y * dz
  else coldens + y * dz.

(** The value stored at [result[i]]. *)
Definition column_entry (radius : R) (samples : Z) (wfunc : R -> Z -> R)
           (i : Z) : R :=
  let r2 := radius * radius in
  let q_xy2 := IZR i * (r2 / IZR samples) in
  let bounds := sqrt (r2 - q_xy2) in
  let dz := bounds / 99 in
  let coldens := fold_left (coldens_step wfunc q_xy2 dz) (range 100) 0 in
  2 * coldens.

Definition _int_func (radius : R) (samples : Z) (wfunc : R -> Z -> R)
  : result (list R) :=
  result <- np.zeros (samples + 1) ;;
  result <- foldM (fun result i =>
                     setitem result i (column_entry radius samples wfunc i))
                  (range samples) result ;;
  setitem result samples 0.

Definition get_column_kernel (self : Kernel) (samples : Z) (st : KernelState)
  : result (list R) * KernelState :=
  match (samples =? 1000)%Z, _column_cache st with
  | true, Some cached => (ret cached, st)
  | _, _ =>
      match _int_func (get_radius self) samples (w self) with
      | inl e => (inl e, st)
      | inr c_kernel =>
          (ret c_kernel,
           if (samples =? 1000)%Z
           then {| _ckernel_func_cache := _ckernel_func_cache st;
                   _column_cache := Some c_kernel |}
           else st)
      end
  end.

Definition get_column_kernel_func (self : Kernel) (samples : Z)
           (st : KernelState) : result (list R) * KernelState :=
  match _ckernel_func_cache st, (samples =? 1000)%Z with
  | Some cached, true => (ret cached, st)
  | _, _ => get_column_kernel self samples st
  end.

End BaseKernel.

(** ** sarracen/kernels/cubic_spline.py *)

Module CubicSplineKernel.

Definition get_radius : R := 2.0.

Definition w (q : R) (ndim : Z) : R :=
  let norm :=
    if (ndim =? 1)%Z then 2.0 / 3.0
    else if (ndim =? 2)%Z then 10.0 / (7.0 * PI) else 1.0 / PI in
  norm * ((1.0 - 1.5 * q * q + 0.75 * q * q * q)
            * b2r (Rleb 0.0 q) * b2r (Rltb q 1.0)
          + 0.25 * (2.0 - q) * (2.0 - q) * (2.0 - q)
            * b2r (Rleb 1.0 q) * b2r (Rltb q 2.0)).

Definition class : Kernel := Build_Kernel get_radius w.

End CubicSplineKernel.

(** ** sarracen/interpolate.py *)

(** The data frame is an external collaborator: a table whose rows are the
    particles and whose columns are addressed by label, so that all columns
    have one length.  [column data c] is [data[c].to_numpy()]. *)
Definition Row : Type := string -> R.
Definition SarracenDataFrame : Type := list Row.

Definition column (data : SarracenDataFrame) (label : string) : list R :=
  map (fun row => row label) data.

Definition Image : Type := list (list R).

(** Modelled from the spec: the attribute [weight] of a kernel object, which
    the projectors hand to their numerical kernels as [kernel.weight].  The
    classes of [sarracen/kernels] name their weight function [w] and define
    no [weight]; the specification's kernel has the one weight function
    [weight(q, dim)], so [kernel.weight] is read as the [w] of the kernel's
    class. *)
Definition weight (kernel : Kernel) : R -> Z -> R := w kernel.

(** [target * mass / (rho * h ** p)], elementwise. *)
Definition term_array (p : nat) (target mass rho h : list R) : list R :=
  np.map2 (fun tm rh => fst tm * snd tm / (fst rh * snd rh ^ p))
          (combine target mass) (combine rho h).

(** [np.rint((c - k_rad * h - cmin) / pixwidth).clip(a_min=0, a_max=n)] and
    the same with [c + k_rad * h], elementwise. *)
Definition pix_lower (c_data h : list R) (k_rad cmin pixwidth : R)
           (pixcount : Z) : list Z :=
  np.map2 (fun c hh =>
             np.clipZ (np.rint ((c - k_rad * hh - cmin) / pixwidth)) 0 pixcount)
          c_data h.

Definition pix_upper (c_data h : list R) (k_rad cmin pixwidth : R)
           (pixcount : Z) : list Z :=
  np.map2 (fun c hh =>
             np.clipZ (np.rint ((c + k_rad * hh - cmin) / pixwidth)) 0 pixcount)
          c_data h.

(** *** [_fast_2d] *)

Module fast_2d.
Section locals.

Variables (target x_data y_data : list R) (wfunc : R -> Z -> R) (k_rad : R)
          (mass rho h : list R) (xmin ymin pixwidthx pixwidthy : R)
          (pixcountx pixcounty : Z).

Definition term : list R := term_array 2 target mass rho h.

Definition ipixmin := pix_lower x_data h k_rad xmin pixwidthx pixcountx.
Definition jpixmin := pix_lower y_data h k_rad ymin pixwidthy pixcounty.
Definition ipixmax := pix_upper x_data h k_rad xmin pixwidthx pixcountx.
Definition jpixmax := pix_upper y_data h k_rad ymin pixwidthy pixcounty.

(** The body of the loop over particles. *)
Definition body (image : Image) (i : nat) : Image :=
  let dx2i :=
    map (fun k => ((xmin + (IZR k + 0.5) * pixwidthx - nth i x_data 0) ^ 2)
                  * (1 / (nth i h 0 ^ 2)))
        (np.arange (nth i ipixmin 0%Z) (nth i ipixmax 0%Z)) in
  let ypix :=
    map (fun k => ymin + (IZR k + 0.5) * pixwidthy)
        (np.arange (nth i jpixmin 0%Z) (nth i jpixmax 0%Z)) in
  let dy := map (fun yp => yp - nth i y_data 0) ypix in
  let dy2 := map (fun d => d * d * (1 / (nth i h 0 ^ 2))) dy in
  let q2 := map (fun d2 => map (fun d1 => d1 + d2) dx2i) dy2 in
  let wab := map (map (fun q => wfunc (sqrt q) 2%Z)) q2 in
  np.slice_add2 (nth i jpixmin 0%Z) (nth i jpixmax 0%Z)
                (nth i ipixmin 0%Z) (nth i ipixmax 0%Z)
                (map (map (fun v => v * nth i term 0)) wab) image.

Definition run : result Image :=
  image <- np.zeros2 pixcounty pixcountx ;;
  ret (fold_left body (seq 0 (length term)) image).

End locals.
End fast_2d.

Definition _fast_2d := fast_2d.run.

Definition interpolate_2d (data : SarracenDataFrame) (target x y : string)
           (kernel : Kernel) (pixwidthx pixwidthy xmin ymin : R)
           (pixcountx pixcounty : Z) : result Image :=
  if Rleb pixwidthx 0
  then raise (ValueError "pixwidthx must be greater than zero!")
  else if Rleb pixwidthy 0
  then raise (ValueError "pixwidthy must be greater than zero!")
  else if (pixcountx <=? 0)%Z
  then raise (ValueError "pixcountx must be greater than zero!")
  else if (pixcounty <=? 0)%Z
  then raise (ValueError "pixcounty must be greater than zero!")
  else _fast_2d (column data target) (column data x) (column data y)
                (weight kernel) (get_radius kernel)
                (column data "m") (column data "rho") (column data "h")
                xmin ymin pixwidthx pixwidthy pixcountx pixcounty.

(** *** [_fast_2d_cross] *)

Module fast_2d_cross.
Section locals.

Variables (target x_data y_data : list R) (wfunc : R -> Z -> R) (k_rad : R)
          (mass rho h : list R) (x1 y1 x2 y2 : R) (pixcount : Z).

Definition gradient : R :=
  if negb (Reqb (x2 - x1) 0) then (y2 - y1) / (x2 - x1) else 0.
Definition yint : R := y2 - gradient * x2.

Definition xlength : R := sqrt ((x2 - x1) ^ 2 + (y2 - y1) ^ 2).
Definition pixwidth : R := xlength / IZR pixcount.
Definition xpixwidth : R := (x2 - x1) / IZR pixcount.

Definition term : list R := term_array 2 target mass rho h.

Definition aa : R := 1 + gradient ^ 2.
Definition bb : list R :=
  np.map2 (fun y x => 2 * gradient * (yint - y) - 2 * x) y_data x_data.
Definition cc : list R :=
  np.map2 (fun xy hh =>
             fst xy ^ 2 + snd xy ^ 2 - 2 * yint * snd xy + yint ^ 2
             - (k_rad * hh) ^ 2)
          (combine x_data y_data) h.
Definition det : list R :=
  np.map2 (fun b c => b ^ 2 - 4 * aa * c) bb cc.

Definition filter_det : list bool := map (fun d => Rleb 0 d) det.
Definition det' : list R := map sqrt det.

Definition xstart : list R :=
  np.map2 (fun b d => np.clip ((- b - d) / (2 * aa)) x1 x2)
          (np.compress filter_det bb) (np.compress filter_det det').
Definition xend : list R :=
  np.map2 (fun b d => np.clip ((- b + d) / (2 * aa)) x1 x2)
          (np.compress filter_det bb) (np.compress filter_det det').

Definition rstart : list R :=
  map (fun xs => sqrt ((xs - x1) ^ 2 + ((gradient * xs + yint) - y1) ^ 2))
      xstart.
Definition rend : list R :=
  map (fun xe => sqrt ((xe - x1) ^ 2 + ((gradient * xe + yint) - y1) ^ 2))
      xend.

Definition ipixmin : list Z :=
  map (fun r => np.clipZ (np.rint (r / pixwidth)) 0 pixcount) rstart.
Definition ipixmax : list Z :=
  map (fun r => np.clipZ (np.rint (r / pixwidth)) 0 pixcount) rend.

Definition body (output : list R) (i : nat) : list R :=
  let xpix :=
    map (fun k => x1 + (IZR k + 0.5) * xpixwidth)
        (np.arange (nth i ipixmin 0%Z) (nth i ipixmax 0%Z)) in
  let ypix := map (fun xp => gradient * xp + yint) xpix in
  let dy := map (fun yp => yp - nth i (np.compress filter_det y_data) 0) ypix in
  let dx := map (fun xp => xp - nth i (np.compress filter_det x_data) 0) xpix in
  let hi := nth i (np.compress filter_det h) 0 in
  let q2 := np.map2 (fun ddx ddy => (ddx * ddx + ddy * ddy) * (1 / (hi * hi)))
                    dx dy in
  let wab := map (fun q => wfunc (sqrt q) 2%Z) q2 in
  np.slice_add (nth i ipixmin 0%Z) (nth i ipixmax 0%Z)
               (map (fun v => v * nth i (np.compress filter_det term) 0) wab)
               output.

Definition run : result (list R) :=
  output <- np.zeros pixcount ;;
  ret (fold_left body
                 (seq 0 (length (np.compress filter_det x_data))) output).

End locals.
End fast_2d_cross.

Definition _fast_2d_cross := fast_2d_cross.run.

Definition interpolate_2d_cross (data : SarracenDataFrame)
           (target x y : string) (kernel : Kernel) (x1 y1 x2 y2 : R)
           (pixcount : Z) : result (list R) :=
  if np.isclose y2 y1 && np.isclose x2 x1
  then raise (ValueError "Zero length cross section!")
  else if (pixcount <=? 0)%Z
  then raise (ValueError "pixcount must be greater than zero!")
  else _fast_2d_cross (column data target) (column data x) (column data y)
                      (weight kernel) (get_radius kernel)
                      (column data "m") (column data "rho") (column data "h")
                      x1 y1 x2 y2 pixcount.

(** *** [_fast_3d] *)

Module fast_3d.
Section locals.

Variables (target x_data y_data : list R) (wfuncint : list R)
          (int_samples : Z) (k_rad : R)
          (mass rho h : list R) (xmin ymin pixwidthx pixwidthy : R)
          (pixcountx pixcounty : Z).

Definition term : list R := term_array 2 target mass rho h.

Definition ipixmin := pix_lower x_data h k_rad xmin pixwidthx pixcountx.
Definition jpixmin := pix_lower y_data h k_rad ymin pixwidthy pixcounty.
Definition ipixmax := pix_upper x_data h k_rad xmin pixwidthx pixcountx.
Definition jpixmax := pix_upper y_data h k_rad ymin pixwidthy pixcounty.

Definition body (image : Image) (i : nat) : result Image :=
  let dx2i :=
    map (fun k => ((xmin + (IZR k + 0.5) * pixwidthx - nth i x_data 0) ^ 2)
                  * (1 / (nth i h 0 ^ 2)))
        (np.arange (nth i ipixmin 0%Z) (nth i ipixmax 0%Z)) in
  let ypix :=
    map (fun k => ymin + (IZR k + 0.5) * pixwidthy)
        (np.arange (nth i jpixmin 0%Z) (nth i jpixmax 0%Z)) in
  let dy := map (fun yp => yp - nth i y_data 0) ypix in
  let dy2 := map (fun d => d * d * (1 / (nth i h 0 ^ 2))) dy in
  let q2 := map (fun d2 => map (fun d1 => d1 + d2) dx2i) dy2 in
  xp <- np.linspace 0 k_rad int_samples ;;
  wab <- np.interp (map (map sqrt) q2) xp wfuncint ;;
  ret (np.slice_add2 (nth i jpixmin 0%Z) (nth i jpixmax 0%Z)
                     (nth i ipixmin 0%Z) (nth i ipixmax 0%Z)
                     (map (map (fun v => v * nth i term 0)) wab) image).

Definition run : result Image :=
  image <- np.zeros2 pixcounty pixcountx ;;
  foldM body (seq 0 (length term)) image.

End locals.
End fast_3d.

Definition _fast_3d := fast_3d.run.

Definition interpolate_3d (data : SarracenDataFrame) (target x y : string)
           (kernel : Kernel) (st : KernelState)
           (pixwidthx pixwidthy xmin ymin : R)
           (pixcountx pixcounty int_samples : Z)
  : result Image * KernelState :=
  if Rleb pixwidthx 0
  then (raise (ValueError "pixwidthx must be greater than zero!"), st)
  else if Rleb pixwidthy 0
  then (raise (ValueError "pixwidthy must be greater than zero!"), st)
  else if (pixcountx <=? 0)%Z
  then (raise (ValueError "pixcountx must be greater than zero!"), st)
  else if (pixcounty <=? 0)%Z
  then (raise (ValueError "pixcounty must be greater than zero!"), st)
  else
    let (column_kernel, st') :=
      BaseKernel.get_column_kernel kernel int_samples st in
    (wfuncint <- column_kernel ;;
     _fast_3d (column data target) (column data x) (column data y)
              wfuncint int_samples (get_radius kernel)
              (column data "m") (column data "rho") (column data "h")
              xmin ymin pixwidthx pixwidthy pixcountx pixcounty,
     st').

(** *** [_fast_3d_cross] *)

Module fast_3d_cross.
Section locals.

Variables (target x_data y_data z_data : list R) (wfunc : R -> Z -> R)
          (zslice k_rad : R) (mass rho h : list R)
          (pixwidthx pixwidthy xmin ymin : R) (pixcountx pixcounty : Z).

Definition term : list R := term_array 3 target mass rho h.
Definition dz : list R := map (fun z => zslice - z) z_data.

Definition filter_distance : list bool :=
  np.map2 (fun d hh => Rltb (Rabs d) (k_rad * hh)) dz h.

Notation "arr [filter_distance]" := (np.compress filter_distance arr)
  (at level 1, format "arr [filter_distance]").

Definition ipixmin :=
  pix_lower x_data[filter_distance] h[filter_distance]
            k_rad xmin pixwidthx pixcountx.
Definition jpixmin :=
  pix_lower y_data[filter_distance] h[filter_distance]
            k_rad ymin pixwidthy pixcounty.
Definition ipixmax :=
  pix_upper x_data[filter_distance] h[filter_distance]
            k_rad xmin pixwidthx pixcountx.
Definition jpixmax :=
  pix_upper y_data[filter_distance] h[filter_distance]
            k_rad ymin pixwidthy pixcounty.

Definition body (image : Image) (i : nat) : Image :=
  let hi := nth i h[filter_distance] 0 in
  let dx2i :=
    map (fun k =>
           ((xmin + (IZR k + 0.5) * pixwidthx
             - nth i x_data[filter_distance] 0) ^ 2) * (1 / (hi ^ 2))
           + (nth i dz[filter_distance] 0 ^ 2) * (1 / hi ^ 2))
        (np.arange (nth i ipixmin 0%Z) (nth i ipixmax 0%Z)) in
  let ypix :=
    map (fun k => ymin + (IZR k + 0.5) * pixwidthy)
        (np.arange (nth i jpixmin 0%Z) (nth i jpixmax 0%Z)) in
  let dy := map (fun yp => yp - nth i y_data[filter_distance] 0) ypix in
  let dy2 := map (fun d => d * d * (1 / (hi ^ 2))) dy in
  let q2 := map (fun d2 => map (fun d1 => d1 + d2) dx2i) dy2 in
  let contribution :=
    map (map (fun q => nth i term[filter_distance] 0 * wfunc (sqrt q) 3%Z))
        q2 in
  np.slice_add2 (nth i jpixmin 0%Z) (nth i jpixmax 0%Z)
                (nth i ipixmin 0%Z) (nth i ipixmax 0%Z)
                contribution image.

Definition run : result Image :=
  image <- np.zeros2 pixcounty pixcountx ;;
  ret (fold_left body (seq 0 (length x_data[filter_distance])) image).

End locals.
End fast_3d_cross.

Definition _fast_3d_cross := fast_3d_cross.run.

Definition interpolate_3d_cross (data : SarracenDataFrame)
           (target : string) (zslice : R) (x y z : string) (kernel : Kernel)
           (pixwidthx pixwidthy xmin ymin : R) (pixcountx pixcounty : Z)
  : result Image :=
  if Rleb pixwidthx 0
  then raise (ValueError "pixwidthx must be greater than zero!")
  else if Rleb pixwidthy 0
  then raise (ValueError "pixwidthy must be greater than zero!")
  else if (pixcountx <=? 0)%Z
  then raise (ValueError "pixcountx must be greater than zero!")
  else if (pixcounty <=? 0)%Z
  then raise (ValueError "pixcounty must be greater than zero!")
  else _fast_3d_cross (column data target) (column data x) (column data y)
                      (column data z) (weight kernel) zslice (get_radius kernel)
                      (column data "m") (column data "rho") (column data "h")
                      pixwidthx pixwidthy xmin ymin pixcountx pixcounty.

(** ** Specification vocabulary *)

(** The error kinds of the specification.  The source raises [ValueError] for
    both and tells them apart by the message. *)
Inductive error_kind : Type := InvalidParameter | DegenerateGeometry.

Definition kind_of (e : exn) : option error_kind :=
  match e with
  | ValueError msg =>
      if String.eqb msg "Zero length cross section!"
      then Some DegenerateGeometry
      else if existsb (String.eqb msg)
                      ["pixwidthx must be greater than zero!"%string;
                       "pixwidthy must be greater than zero!"%string;
                       "pixcountx must be greater than zero!"%string;
                       "pixcounty must be greater than zero!"%string;
                       "pixcount must be greater than zero!"%string]
      then Some InvalidParameter
      else None
  | IndexError _ => None
  end.

(** [r] is a failure of kind [k]: an exception, and no output. *)
Definition fails_with {A} (r : result A) (k : error_kind) : Prop :=
  exists e, r = inl e /\ kind_of e = Some k.


(** The composite trapezoidal rule of the specification: [points] evaluation
    points over [points - 1] equal sub-intervals of [[a, b]]; an endpoint
    weighs 1/2, every other point 1, and each term is scaled by the
    sub-interval width. *)
Definition trapezoid_weight (points j : nat) : R :=
  if ((j =? 0) || (j =? points - 1))%nat then 1 / 2 else 1.

Definition trapezoid (points : nat) (f : R -> R) (a b : R) : R :=
  let width := (b - a) / INR (points - 1) in
  fold_right Rplus 0
             (map (fun j => trapezoid_weight points j * f (a + INR j * width)
                            * width)
                  (seq 0 points)).

(** The integrand of the column kernel at a squared planar distance. *)
Definition column_integrand (wfunc : R -> Z -> R) (q_xy2 : R) (q_z : R) : R :=
  wfunc (sqrt (q_xy2 + q_z * q_z)) 3%Z.

(** The cache of a kernel object holds nothing, or the table for 1000
    samples: the states reachable from [__init__] through
    [get_column_kernel]. *)
Definition cache_ok (self : Kernel) (st : KernelState) : Prop :=
  forall cached, _column_cache st = Some cached ->
                 BaseKernel._int_func (get_radius self) 1000 (w self)
                 = inr cached.

(** The value of a pixel; [j] is the row (y) and [i] the column (x) index. *)
Definition pixel (image : Image) (j i : Z) : R :=
  nth (Z.to_nat i) (nth (Z.to_nat j) image []) 0.

Definition shape (rows cols : Z) (image : Image) : Prop :=
  length image = Z.to_nat rows
  /\ Forall (fun row => length row = Z.to_nat cols) image.

Definition in_span (lo hi k : Z) : bool := ((lo <=? k) && (k <? hi))%Z.

(** The sum of a list of reals. *)
Definition Rsum (l : list R) : R := fold_right Rplus 0 l.

(** What one particle adds to an image: a value at every pixel of a
    half-open index rectangle. *)
Record Stamp : Type := {
  jlo : Z; jhi : Z; ilo : Z; ihi : Z;
  val : Z -> Z -> R
}.

Definition stamp_add (s : Stamp) (image : Image) : Image :=
  np.slice_add2 (jlo s) (jhi s) (ilo s) (ihi s)
                (map (fun kj => map (fun ki => val s kj ki)
                                    (np.arange (ilo s) (ihi s)))
                     (np.arange (jlo s) (jhi s)))
                image.

(** The contribution of a stamp to pixel [(j, i)]. *)
Definition stamp_at (s : Stamp) (j i : Z) : R :=
  if in_span (jlo s) (jhi s) j && in_span (ilo s) (ihi s) i
  then val s j i else 0.




(** The centre of pixel [k] along one axis. *)
Definition pix_center (cmin pixwidth : R) (k : Z) : R :=
  cmin + (IZR k + 0.5) * pixwidth.

(** The pixel index bounds of a particle along one axis. *)
Definition span_lo (c hh k_rad cmin pixwidth : R) (pixcount : Z) : Z :=
  np.clipZ (np.rint ((c - k_rad * hh - cmin) / pixwidth)) 0 pixcount.

Definition span_hi (c hh k_rad cmin pixwidth : R) (pixcount : Z) : Z :=
  np.clipZ (np.rint ((c + k_rad * hh - cmin) / pixwidth)) 0 pixcount.

(** The stamp of one particle in [_fast_2d]; [t], [xx], [yy], [m], [rho] and
    [hh] are its entries in the arrays [target], [x_data], [y_data], [mass],
    [rho] and [h]. *)
Definition stamp_2d (wfunc : R -> Z -> R)
           (k_rad xmin ymin pixwidthx pixwidthy : R) (pixcountx pixcounty : Z)
           (t xx yy m rho hh : R) : Stamp :=
  {| jlo := span_lo yy hh k_rad ymin pixwidthy pixcounty;
     jhi := span_hi yy hh k_rad ymin pixwidthy pixcounty;
     ilo := span_lo xx hh k_rad xmin pixwidthx pixcountx;
     ihi := span_hi xx hh k_rad xmin pixwidthx pixcountx;
     val := fun j i =>
       wfunc (sqrt ((pix_center xmin pixwidthx i - xx) ^ 2 * (1 / hh ^ 2)
                    + (pix_center ymin pixwidthy j - yy)
                      * (pix_center ymin pixwidthy j - yy) * (1 / hh ^ 2)))
             2%Z
       * (t * m / (rho * hh ^ 2)) |}.

Definition row_stamp_2d (kernel : Kernel) (target x y : string)
           (pixwidthx pixwidthy xmin ymin : R) (pixcountx pixcounty : Z)
           (row : Row) : Stamp :=
  stamp_2d (weight kernel) (get_radius kernel) xmin ymin pixwidthx pixwidthy
           pixcountx pixcounty
           (row target) (row x) (row y) (row "m"%string) (row "rho"%string)
           (row "h"%string).

(** The stamp of one particle in [_fast_3d_cross], and the mask entry that
    keeps it. *)
Definition stamp_3d_cross (wfunc : R -> Z -> R)
           (zslice k_rad pixwidthx pixwidthy xmin ymin : R)
           (pixcountx pixcounty : Z) (t xx yy zz m rho hh : R) : Stamp :=
  {| jlo := span_lo yy hh k_rad ymin pixwidthy pixcounty;
     jhi := span_hi yy hh k_rad ymin pixwidthy pixcounty;
     ilo := span_lo xx hh k_rad xmin pixwidthx pixcountx;
     ihi := span_hi xx hh k_rad xmin pixwidthx pixcountx;
     val := fun j i =>
       t * m / (rho * hh ^ 3)
       * wfunc (sqrt ((pix_center xmin pixwidthx i - xx) ^ 2 * (1 / hh ^ 2)
                      + (zslice - zz) ^ 2 * (1 / hh ^ 2)
                      + (pix_center ymin pixwidthy j - yy)
                        * (pix_center ymin pixwidthy j - yy) * (1 / hh ^ 2)))
               3%Z |}.

Definition keep_3d_cross (zslice k_rad zz hh : R) : bool :=
  Rltb (Rabs (zslice - zz)) (k_rad * hh).

Definition row_stamp_3d_cross (kernel : Kernel) (target : string) (zslice : R)
           (x y z : string) (pixwidthx pixwidthy xmin ymin : R)
           (pixcountx pixcounty : Z) (row : Row) : Stamp :=
  stamp_3d_cross (weight kernel) zslice (get_radius kernel)
                 pixwidthx pixwidthy xmin ymin pixcountx pixcounty
                 (row target) (row x) (row y) (row z)
                 (row "m"%string) (row "rho"%string) (row "h"%string).

Definition row_keep_3d_cross (kernel : Kernel) (zslice : R) (z : string)
           (row : Row) : bool :=
  keep_3d_cross zslice (get_radius kernel) (row z) (row "h"%string).











(** A particle for the examples: position [(xx, yy, zz)], every other column
    (the target, ["m"], ["rho"], ["h"]) equal to 1. *)
Definition example_row (xx yy zz : R) : Row :=
  fun label =>
    if String.eqb label "x" then xx
    else if String.eqb label "y" then yy
    else if String.eqb label "z" then zz
    else 1.






(** A grid descriptor the three grid projectors accept. *)
Definition valid_grid (pixwidthx pixwidthy : R) (pixcountx pixcounty : Z)
  : Prop :=
  0 < pixwidthx /\ 0 < pixwidthy /\ (0 < pixcountx)%Z /\ (0 < pixcounty)%Z.

(** The normalisation constant of the cubic spline in [ndim] dimensions. *)
Definition spline_norm (ndim : Z) : R :=
  if (ndim =? 1)%Z then 2 / 3
  else if (ndim =? 2)%Z then 10 / (7 * PI) else 1 / PI.

(** The states of a kernel object that calls of its two column methods reach
    from [__init__]. *)
Inductive reachable (self : Kernel) : KernelState -> Prop :=
| reachable_init : reachable self BaseKernel.__init__
| reachable_column samples st :
    reachable self st ->
    reachable self (snd (BaseKernel.get_column_kernel self samples st))
| reachable_column_func samples st :
    reachable self st ->
    reachable self (snd (BaseKernel.get_column_kernel_func self samples st)).


(** A particle moved by [(dx, dy)] in the columns [x] and [y]. *)
Definition shift_row (x y : string) (dx dy : R) (row : Row) : Row :=
  fun label =>
    if String.eqb label x then row label + dx
    else if String.eqb label y then row label + dy
    else row label.

(** ** Basic facts *)

Lemma Rleb_true (a b : R) : Rleb a b = true <-> a <= b.
Proof. unfold Rleb; destruct (Rle_dec a b); split; intros; easy. Qed.

Lemma Rleb_false (a b : R) : Rleb a b = false <-> b < a.
Proof.
  unfold Rleb; destruct (Rle_dec a b); split; intros; try easy; lra.
Qed.

Lemma Rltb_true (a b : R) : Rltb a b = true <-> a < b.
Proof. unfold Rltb; destruct (Rlt_dec a b); split; intros; easy. Qed.

Lemma Rltb_false (a b : R) : Rltb a b = false <-> b <= a.
Proof.
  unfold Rltb; destruct (Rlt_dec a b); split; intros; try easy; lra.
Qed.



Lemma isclose_spec (a b : R) :
  np.isclose a b = true <-> Rabs (a - b) <= np.atol + np.rtol * Rabs b.
Proof. unfold np.isclose; apply Rleb_true. Qed.

Lemma isclose_refl (a : R) : np.isclose a a = true.
Proof.
  apply isclose_spec. replace (a - a) with 0 by ring. rewrite Rabs_R0.
  pose proof (Rabs_pos a). unfold np.atol, np.rtol. nra.
Qed.

(** The four grid checks shared by [interpolate_2d], [interpolate_3d] and
    [interpolate_3d_cross]. *)
Ltac grid_checks :=
  repeat match goal with
    | |- context [if Rleb ?a 0 then _ else _] =>
        let E := fresh "E" in destruct (Rleb a 0) eqn:E;
        [ | apply Rleb_false in E ]
    | |- context [if (?a <=? 0)%Z then _ else _] =>
        let E := fresh "E" in destruct (a <=? 0)%Z eqn:E;
        [ | apply Z.leb_gt in E ]
    end.

Lemma interpolate_2d_invalid data target x y kernel
      pixwidthx pixwidthy xmin ymin pixcountx pixcounty :
  pixwidthx <= 0 \/ pixwidthy <= 0 \/ (pixcountx <= 0)%Z \/ (pixcounty <= 0)%Z ->
  fails_with (interpolate_2d data target x y kernel pixwidthx pixwidthy
                             xmin ymin pixcountx pixcounty) InvalidParameter.
Proof.
  intros H. unfold interpolate_2d, weight, fails_with, raise.
  grid_checks; try (eexists; split; reflexivity).
  exfalso. destruct H as [H | [H | [H | H]]]; try lra; lia.
Qed.

Lemma interpolate_3d_invalid data target x y kernel st
      pixwidthx pixwidthy xmin ymin pixcountx pixcounty int_samples :
  pixwidthx <= 0 \/ pixwidthy <= 0 \/ (pixcountx <= 0)%Z \/ (pixcounty <= 0)%Z ->
  fails_with (fst (interpolate_3d data target x y kernel st pixwidthx pixwidthy
                                  xmin ymin pixcountx pixcounty int_samples))
             InvalidParameter
  /\ snd (interpolate_3d data target x y kernel st pixwidthx pixwidthy
                         xmin ymin pixcountx pixcounty int_samples) = st.
Proof.
  intros H. unfold interpolate_3d, fails_with, raise.
  grid_checks; try (split; [eexists; split; reflexivity | reflexivity]).
  exfalso. destruct H as [H | [H | [H | H]]]; try lra; lia.
Qed.

Lemma interpolate_3d_cross_invalid data target zslice x y z kernel
      pixwidthx pixwidthy xmin ymin pixcountx pixcounty :
  pixwidthx <= 0 \/ pixwidthy <= 0 \/ (pixcountx <= 0)%Z \/ (pixcounty <= 0)%Z ->
  fails_with (interpolate_3d_cross data target zslice x y z kernel
                                   pixwidthx pixwidthy xmin ymin
                                   pixcountx pixcounty) InvalidParameter.
Proof.
  intros H. unfold interpolate_3d_cross, weight, fails_with, raise.
  grid_checks; try (eexists; split; reflexivity).
  exfalso. destruct H as [H | [H | [H | H]]]; try lra; lia.
Qed.

(** The zero-length check of [interpolate_2d_cross] comes first and uses
    [np.isclose] on both coordinates. *)
Lemma interpolate_2d_cross_close data target x y kernel x1 y1 x2 y2 pixcount :
  np.isclose y2 y1 = true -> np.isclose x2 x1 = true ->
  interpolate_2d_cross data target x y kernel x1 y1 x2 y2 pixcount
  = raise (ValueError "Zero length cross section!").
Proof. intros Hy Hx. unfold interpolate_2d_cross, weight. now rewrite Hy, Hx. Qed.

Lemma interpolate_2d_cross_not_close data target x y kernel x1 y1 x2 y2 pixcount :
  np.isclose y2 y1 && np.isclose x2 x1 = false ->
  interpolate_2d_cross data target x y kernel x1 y1 x2 y2 pixcount
  = if (pixcount <=? 0)%Z
    then raise (ValueError "pixcount must be greater than zero!")
    else _fast_2d_cross (column data target) (column data x) (column data y)
                        (w kernel) (get_radius kernel)
                        (column data "m") (column data "rho") (column data "h")
                        x1 y1 x2 y2 pixcount.
Proof. intros H. unfold interpolate_2d_cross, weight. now rewrite H. Qed.

(** ** C1: parameter validation *)

(** C1, as stated, fails where both checks of [interpolate_2d_cross] apply:
    with coincident endpoints and [pixcount = 0] the zero-length error is
    raised, not the [pixcount] one. *)
Lemma validation_pixcount_counterexample :
  (0 <= 0)%Z
  /\ ~ fails_with (interpolate_2d_cross [] "rho" "x" "y" CubicSplineKernel.class
                                        0 0 0 0 0) InvalidParameter.
Proof.
  split; [lia |].
  rewrite interpolate_2d_cross_close by apply isclose_refl.
  intros [e [He Hk]]. inversion He; subst e. discriminate Hk.
Qed.

(** C1 (amended): the three grid projectors fail with [InvalidParameter] when
    a pixel width or count is not positive, whatever the particle data, and
    [interpolate_3d] leaves the kernel's cache untouched;
    [interpolate_2d_cross] fails with [DegenerateGeometry] when the endpoints
    coincide (this check comes first), and with [InvalidParameter] when
    [pixcount <= 0] and the endpoints are not both within [np.isclose]
    tolerance.  A failure is an exception value: no image is returned. *)
Theorem parameter_validation
        (data : SarracenDataFrame) (target x y z : string) (kernel : Kernel)
        (st : KernelState) (zslice pixwidthx pixwidthy xmin ymin : R)
        (pixcountx pixcounty int_samples : Z) (x1 y1 x2 y2 : R) (pixcount : Z) :
  (pixwidthx <= 0 \/ pixwidthy <= 0 \/ (pixcountx <= 0)%Z \/ (pixcounty <= 0)%Z ->
   fails_with (interpolate_2d data target x y kernel pixwidthx pixwidthy
                              xmin ymin pixcountx pixcounty) InvalidParameter
   /\ fails_with (fst (interpolate_3d data target x y kernel st
                                      pixwidthx pixwidthy xmin ymin
                                      pixcountx pixcounty int_samples))
                 InvalidParameter
   /\ snd (interpolate_3d data target x y kernel st pixwidthx pixwidthy
                          xmin ymin pixcountx pixcounty int_samples) = st
   /\ fails_with (interpolate_3d_cross data target zslice x y z kernel
                                       pixwidthx pixwidthy xmin ymin
                                       pixcountx pixcounty) InvalidParameter)
  /\ (x1 = x2 /\ y1 = y2 ->
      fails_with (interpolate_2d_cross data target x y kernel
                                       x1 y1 x2 y2 pixcount) DegenerateGeometry)
  /\ ((pixcount <= 0)%Z ->
      np.isclose y2 y1 && np.isclose x2 x1 = false ->
      fails_with (interpolate_2d_cross data target x y kernel
                                       x1 y1 x2 y2 pixcount) InvalidParameter).
Proof.
  split; [| split].
  - intros H. split; [| split; [| split]].
    + now apply interpolate_2d_invalid.
    + now apply interpolate_3d_invalid.
    + now apply interpolate_3d_invalid.
    + now apply interpolate_3d_cross_invalid.
  - intros [-> ->].
    rewrite interpolate_2d_cross_close by apply isclose_refl.
    eexists; split; reflexivity.
  - intros Hp Hc. rewrite interpolate_2d_cross_not_close by exact Hc.
    apply Z.leb_le in Hp. rewrite Hp. eexists; split; reflexivity.
Qed.

Lemma isclose_one_zero : np.isclose 1 0 = false.
Proof.
  apply Rleb_false. replace (1 - 0) with 1 by ring.
  rewrite Rabs_R0, Rabs_R1. unfold np.atol, np.rtol. lra.
Qed.

Lemma parameter_validation_witness :
  fails_with (interpolate_2d [] "rho" "x" "y" CubicSplineKernel.class
                             0 1 0 0 480 480) InvalidParameter
  /\ fails_with (interpolate_2d_cross [] "rho" "x" "y" CubicSplineKernel.class
                                      0 0 0 0 500) DegenerateGeometry
  /\ fails_with (interpolate_2d_cross [] "rho" "x" "y" CubicSplineKernel.class
                                      0 0 1 1 0) InvalidParameter.
Proof.
  destruct (parameter_validation [] "rho" "x" "y" "z" CubicSplineKernel.class
              BaseKernel.__init__ 0 0 1 0 0 480 480 1000 0 0 0 0 500)
    as [H1 [H2 _]].
  destruct (parameter_validation [] "rho" "x" "y" "z" CubicSplineKernel.class
              BaseKernel.__init__ 0 0 1 0 0 480 480 1000 0 0 1 1 0)
    as [_ [_ H3]].
  split; [| split].
  - apply H1. left. lra.
  - apply H2. split; reflexivity.
  - apply H3; [lia |]. rewrite isclose_one_zero. reflexivity.
Defined.

(** ** Slices *)

Lemma slice_add_from_length k lo hi vals row :
  length (np.slice_add_from k lo hi vals row) = length row.
Proof.
  revert k; induction row as [| v row IH]; intros k; simpl;
    [reflexivity | now rewrite IH].
Qed.

Lemma slice_add_length lo hi vals row :
  length (np.slice_add lo hi vals row) = length row.
Proof. apply slice_add_from_length. Qed.

Lemma fold_left_invariant {A S} (P : S -> Prop) (f : S -> A -> S) l s :
  (forall s a, P s -> P (f s a)) -> P s -> P (fold_left f l s).
Proof.
  intros Hf. revert s; induction l as [| a l IH]; intros s Hs; simpl; auto.
Qed.

Lemma zeros_nonneg n :
  (0 <= n)%Z -> np.zeros n = ret (repeat 0 (Z.to_nat n)).
Proof.
  intros H. unfold np.zeros. destruct (n <? 0)%Z eqn:E; [| reflexivity].
  apply Z.ltb_lt in E; lia.
Qed.

Lemma fast_2d_cross_returns target x_data y_data wfunc k_rad mass rho h
      x1 y1 x2 y2 pixcount :
  (0 <= pixcount)%Z ->
  exists output,
    _fast_2d_cross target x_data y_data wfunc k_rad mass rho h
                   x1 y1 x2 y2 pixcount = inr output
    /\ length output = Z.to_nat pixcount.
Proof.
  intros Hp. unfold _fast_2d_cross, fast_2d_cross.run.
  rewrite zeros_nonneg by exact Hp. simpl. eexists; split; [reflexivity |].
  apply fold_left_invariant.
  - intros s i Hs. unfold fast_2d_cross.body.
    now rewrite slice_add_length.
  - apply repeat_length.
Qed.

(** ** C10: degeneracy is decided by [np.isclose] *)

(** C10: [interpolate_2d_cross] raises the zero-length error exactly when both
    coordinates of the endpoints are within the default [np.isclose]
    tolerance; so the distinct endpoints (0,0) and (1e-9,0) are rejected as
    a zero-length cross-section. *)
Theorem degenerate_by_isclose
        (data : SarracenDataFrame) (target x y : string) (kernel : Kernel)
        (x1 y1 x2 y2 : R) (pixcount : Z) :
  (fails_with (interpolate_2d_cross data target x y kernel x1 y1 x2 y2 pixcount)
              DegenerateGeometry
   <-> Rabs (y2 - y1) <= 1e-8 + 1e-5 * Rabs y1
       /\ Rabs (x2 - x1) <= 1e-8 + 1e-5 * Rabs x1)
  /\ ((0, 0) <> (1e-9, 0)
      /\ interpolate_2d_cross data target x y kernel 0 0 1e-9 0 pixcount
         = raise (ValueError "Zero length cross section!")).
Proof.
  assert (Ha : np.atol = 1e-8) by (unfold np.atol; lra).
  assert (Hr : np.rtol = 1e-5) by (unfold np.rtol; lra).
  split; [split |].
  - intros [e [He Hk]].
    destruct (np.isclose y2 y1 && np.isclose x2 x1) eqn:Hc.
    + apply andb_true_iff in Hc. destruct Hc as [Hy Hx].
      apply isclose_spec in Hy, Hx. rewrite Ha, Hr in Hy, Hx. now split.
    + rewrite interpolate_2d_cross_not_close in He by exact Hc.
      destruct (pixcount <=? 0)%Z eqn:Hp.
      * inversion He; subst e. discriminate Hk.
      * apply Z.leb_gt in Hp.
        destruct (fast_2d_cross_returns (column data target) (column data x)
                    (column data y) (w kernel) (get_radius kernel)
                    (column data "m") (column data "rho") (column data "h")
                    x1 y1 x2 y2 pixcount) as [out [Ho _]]; [lia |].
        rewrite Ho in He. discriminate He.
  - intros [Hy Hx]. rewrite <- Ha, <- Hr in Hy, Hx.
    rewrite interpolate_2d_cross_close by now apply isclose_spec.
    eexists; split; reflexivity.
  - split.
    + intros H. inversion H. lra.
    + apply interpolate_2d_cross_close; apply isclose_spec;
        unfold np.atol, np.rtol.
      * replace (0 - 0) with 0 by ring. rewrite Rabs_R0. lra.
      * replace (1e-9 - 0) with 1e-9 by ring. rewrite Rabs_R0.
        rewrite Rabs_pos_eq; lra.
Qed.

(** ** C9: vertical cross-section lines *)





(** ** C3: the column table *)

Lemma list_set_app {A} (pre : list A) r post v :
  list_set (pre ++ r :: post) (length pre) v = pre ++ v :: post.
Proof. induction pre as [| a pre IH]; simpl; [reflexivity | now rewrite IH]. Qed.

Lemma setitem_app pre r post v :
  setitem (pre ++ r :: post) (Z.of_nat (length pre)) v = ret (pre ++ v :: post).
Proof.
  unfold setitem. rewrite length_app. simpl length.
  replace (Z.of_nat (length pre) <? 0)%Z with false
    by (symmetry; apply Z.ltb_ge; lia).
  replace ((0 <=? Z.of_nat (length pre))
           && (Z.of_nat (length pre) <? Z.of_nat (length pre + S (length post))))%Z
    with true by (symmetry; apply andb_true_iff; split;
                  [apply Z.leb_le | apply Z.ltb_lt]; lia).
  now rewrite Nat2Z.id, list_set_app.
Qed.

Lemma fill_loop (f : Z -> R) m :
  forall pre rest tail,
    length rest = m ->
    foldM (fun result i => setitem result i (f i))
          (map Z.of_nat (seq (length pre) m)) (pre ++ rest ++ tail)
    = ret (pre ++ map (fun j => f (Z.of_nat j)) (seq (length pre) m) ++ tail).
Proof.
  induction m as [| m IH]; intros pre rest tail Hlen.
  - destruct rest; [reflexivity | discriminate].
  - destruct rest as [| r rest]; [discriminate |]. simpl in Hlen.
    simpl seq. simpl map. simpl foldM. simpl app at 1.
    rewrite setitem_app. simpl bind.
    specialize (IH (pre ++ [f (Z.of_nat (length pre))]) rest tail).
    rewrite length_app, Nat.add_1_r in IH. simpl length in IH.
    rewrite <- !app_assoc in IH. simpl app in IH.
    rewrite IH by lia. reflexivity.
Qed.

Lemma int_func_table radius samples wfunc :
  (0 <= samples)%Z ->
  BaseKernel._int_func radius samples wfunc
  = ret (map (BaseKernel.column_entry radius samples wfunc) (range samples)
             ++ [0]).
Proof.
  intros Hs. unfold BaseKernel._int_func.
  rewrite zeros_nonneg by lia. simpl bind.
  replace (Z.to_nat (samples + 1)) with (Z.to_nat samples + 1)%nat by lia.
  rewrite repeat_app. simpl (repeat 0 1).
  unfold range.
  pose proof (fill_loop (BaseKernel.column_entry radius samples wfunc)
                        (Z.to_nat samples) [] (repeat 0 (Z.to_nat samples)) [0]
                        (repeat_length _ _)) as H.
  simpl length in H. simpl app in H. rewrite H. simpl bind.
  rewrite map_map.
  set (tbl := map _ (seq 0 (Z.to_nat samples))).
  assert (Hl : samples = Z.of_nat (length tbl))
    by (unfold tbl; rewrite length_map, length_seq; lia).
  replace (setitem (tbl ++ [0]) samples 0)
    with (setitem (tbl ++ [0]) (Z.of_nat (length tbl)) 0) by now rewrite <- Hl.
  rewrite (setitem_app tbl 0 [] 0). reflexivity.
Qed.

Lemma coldens_sum wfunc q_xy2 dz l acc :
  fold_left (BaseKernel.coldens_step wfunc q_xy2 dz) l acc
  = acc + fold_right Rplus 0
            (map (fun j => (if ((j =? 0) || (j =? 99))%Z then 1 / 2 else 1)
                           * column_integrand wfunc q_xy2 (IZR j * dz) * dz) l).
Proof.
  revert acc; induction l as [| j l IH]; intros acc; simpl.
  - ring.
  - rewrite IH. unfold BaseKernel.coldens_step, column_integrand.
    destruct ((j =? 0) || (j =? 99))%Z; lra.
Qed.

Lemma column_entry_trapezoid radius samples wfunc i :
  BaseKernel.column_entry radius samples wfunc i
  = 2 * trapezoid 100
          (column_integrand wfunc (IZR i * (radius * radius) / IZR samples))
          0
          (sqrt (radius * radius - IZR i * (radius * radius) / IZR samples)).
Proof.
  unfold BaseKernel.column_entry, trapezoid.
  replace (IZR i * (radius * radius / IZR samples))
    with (IZR i * (radius * radius) / IZR samples) by (unfold Rdiv; ring).
  set (q_xy2 := IZR i * (radius * radius) / IZR samples).
  set (bounds := sqrt (radius * radius - q_xy2)).
  rewrite coldens_sum. rewrite Rplus_0_l. f_equal. f_equal.
  unfold range. rewrite map_map.
  replace (Z.to_nat 100) with 100%nat by reflexivity.
  apply map_ext_in. intros j Hj. apply in_seq in Hj.
  assert (HI : INR (100 - 1) = 99)
    by (rewrite INR_IZR_INZ; reflexivity).
  rewrite HI. rewrite <- INR_IZR_INZ.
  replace (0 + INR j * ((bounds - 0) / 99)) with (INR j * (bounds / 99))
    by (unfold Rdiv; ring).
  replace ((bounds - 0) / 99) with (bounds / 99) by (unfold Rdiv; ring).
  f_equal. f_equal. unfold trapezoid_weight.
  replace (Z.of_nat j =? 0)%Z with (j =? 0)%nat
    by (destruct j; reflexivity).
  replace (Z.of_nat j =? 99)%Z with (j =? 100 - 1)%nat; [reflexivity |].
  destruct (Nat.eqb_spec j (100 - 1)) as [-> | Hne]; [reflexivity |].
  symmetry; apply Z.eqb_neq. simpl in Hne. lia.
Qed.

Lemma nth_range_map (f : Z -> R) n i d :
  (0 <= i < n)%Z -> nth (Z.to_nat i) (map f (range n)) d = f i.
Proof.
  intros Hi. unfold range. rewrite map_map.
  rewrite (nth_indep _ d (f (Z.of_nat 0)))
    by (rewrite length_map, length_seq; lia).
  rewrite (map_nth (fun j => f (Z.of_nat j))), seq_nth by lia.
  simpl. now rewrite Z2Nat.id by lia.
Qed.

Lemma cache_ok_init self : cache_ok self BaseKernel.__init__.
Proof. intros c H; discriminate H. Qed.

Lemma get_column_kernel_table self samples st :
  (0 <= samples)%Z -> cache_ok self st ->
  fst (BaseKernel.get_column_kernel self samples st)
  = BaseKernel._int_func (get_radius self) samples (w self)
  /\ cache_ok self (snd (BaseKernel.get_column_kernel self samples st)).
Proof.
  intros Hs Hc. unfold BaseKernel.get_column_kernel.
  destruct (samples =? 1000)%Z eqn:E.
  - apply Z.eqb_eq in E; subst samples.
    destruct (_column_cache st) as [cached |] eqn:Hcache.
    + simpl. split; [symmetry; now apply Hc | exact Hc].
    + rewrite (int_func_table _ 1000) by lia. simpl. split; [reflexivity |].
      intros c H; simpl in H. inversion H; subst c.
      now rewrite (int_func_table _ 1000) by lia.
  - rewrite int_func_table by lia. simpl. split; [reflexivity | exact Hc].
Qed.

(** C3: for [samples > 0], on a kernel object whose cache is well formed,
    [get_column_kernel] returns [samples + 1] numbers; entry [i < samples] is
    twice the 100-point composite trapezoidal approximation of the integral
    of [w(sqrt(q_xy2 + q_z^2), 3)] over [q_z] in [[0, sqrt(r^2 - q_xy2)]] at
    [q_xy2 = i * r^2 / samples], and entry [samples] is 0. *)
Theorem column_table_trapezoid
        (self : Kernel) (samples : Z) (st : KernelState) :
  (0 < samples)%Z -> cache_ok self st ->
  exists table,
    fst (BaseKernel.get_column_kernel self samples st) = inr table
    /\ length table = Z.to_nat (samples + 1)
    /\ (forall i, (0 <= i < samples)%Z ->
          let r := get_radius self in
          let q_xy2 := IZR i * (r * r) / IZR samples in
          nth (Z.to_nat i) table 0
          = 2 * trapezoid 100 (column_integrand (w self) q_xy2)
                          0 (sqrt (r * r - q_xy2)))
    /\ nth (Z.to_nat samples) table 0 = 0
    /\ cache_ok self (snd (BaseKernel.get_column_kernel self samples st)).
Proof.
  intros Hs Hc.
  destruct (get_column_kernel_table self samples st) as [Ht Hc']; [lia | easy |].
  rewrite Ht, int_func_table by lia.
  eexists; split; [reflexivity | split; [| split; [| split]]].
  - unfold range. rewrite length_app, !length_map, length_seq. simpl. lia.
  - intros i Hi r q_xy2.
    rewrite app_nth1
      by (unfold range; rewrite !length_map, length_seq; lia).
    rewrite nth_range_map by exact Hi. apply column_entry_trapezoid.
  - rewrite app_nth2
      by (unfold range; rewrite !length_map, length_seq; lia).
    unfold range; rewrite !length_map, length_seq, Nat.sub_diag. reflexivity.
  - exact Hc'.
Qed.

Lemma column_table_trapezoid_witness :
  exists table,
    fst (BaseKernel.get_column_kernel CubicSplineKernel.class 4
                                      BaseKernel.__init__) = inr table
    /\ length table = Z.to_nat (4 + 1)
    /\ (forall i, (0 <= i < 4)%Z ->
          let r := get_radius CubicSplineKernel.class in
          let q_xy2 := IZR i * (r * r) / IZR 4 in
          nth (Z.to_nat i) table 0
          = 2 * trapezoid 100
                  (column_integrand (w CubicSplineKernel.class) q_xy2)
                  0 (sqrt (r * r - q_xy2)))
    /\ nth (Z.to_nat 4) table 0 = 0
    /\ cache_ok CubicSplineKernel.class
                (snd (BaseKernel.get_column_kernel CubicSplineKernel.class 4
                                                   BaseKernel.__init__)).
Proof.
  apply (column_table_trapezoid CubicSplineKernel.class 4 BaseKernel.__init__).
  - lia.
  - apply cache_ok_init.
Defined.

(** ** Arrays built from the rows of a data frame *)

Lemma map2_map {A B C D} (f : B -> C -> D) (a : A -> B) (b : A -> C) l :
  np.map2 f (map a l) (map b l) = map (fun r => f (a r) (b r)) l.
Proof. induction l as [| r l IH]; simpl; [reflexivity | now rewrite IH]. Qed.

Lemma combine_map {A B C} (a : A -> B) (b : A -> C) l :
  combine (map a l) (map b l) = map (fun r => (a r, b r)) l.
Proof. induction l as [| r l IH]; simpl; [reflexivity | now rewrite IH]. Qed.

Lemma compress_map {A B} (m : A -> bool) (g : A -> B) l :
  np.compress (map m l) (map g l) = map g (filter m l).
Proof.
  induction l as [| r l IH]; simpl; [reflexivity |].
  destruct (m r); simpl; now rewrite IH.
Qed.

Lemma nth_map_error {A B} (g : A -> B) l i a d :
  nth_error l i = Some a -> nth i (map g l) d = g a.
Proof.
  revert i; induction l as [| r l IH]; intros [| i] H; simpl in *;
    try discriminate; [now inversion H | now apply IH].
Qed.

Lemma fold_seq_rows {A St} (g : St -> nat -> St) (f : St -> A -> St) l :
  forall k s,
    (forall s i a, nth_error l i = Some a -> g s (k + i)%nat = f s a) ->
    fold_left g (seq k (length l)) s = fold_left f l s.
Proof.
  induction l as [| r l IH]; intros k s H; simpl; [reflexivity |].
  rewrite <- (H s 0%nat r eq_refl), Nat.add_0_r.
  apply IH. intros s' i a Hi. rewrite <- (H s' (S i) a Hi). f_equal. lia.
Qed.

Lemma term_array_rows {A} p (t m rho h : A -> R) l :
  term_array p (map t l) (map m l) (map rho l) (map h l)
  = map (fun r => t r * m r / (rho r * h r ^ p)) l.
Proof. unfold term_array. now rewrite !combine_map, map2_map. Qed.

Lemma pix_lower_rows {A} (c h : A -> R) l k_rad cmin pixwidth pixcount :
  pix_lower (map c l) (map h l) k_rad cmin pixwidth pixcount
  = map (fun r => span_lo (c r) (h r) k_rad cmin pixwidth pixcount) l.
Proof. unfold pix_lower. now rewrite map2_map. Qed.

Lemma pix_upper_rows {A} (c h : A -> R) l k_rad cmin pixwidth pixcount :
  pix_upper (map c l) (map h l) k_rad cmin pixwidth pixcount
  = map (fun r => span_hi (c r) (h r) k_rad cmin pixwidth pixcount) l.
Proof. unfold pix_upper. now rewrite map2_map. Qed.

(** ** Pixels of a stamped image *)

Lemma nth_arange {B} (f : Z -> B) lo hi k d :
  (lo <= k < hi)%Z -> nth (Z.to_nat (k - lo)) (map f (np.arange lo hi)) d = f k.
Proof.
  intros Hk. unfold np.arange. rewrite map_map.
  rewrite (nth_indep _ d (f (lo + Z.of_nat 0)%Z))
    by (rewrite length_map, length_seq; lia).
  rewrite (map_nth (fun j => f (lo + Z.of_nat j)%Z)), seq_nth by lia.
  f_equal. lia.
Qed.

Lemma slice_add_from_nth lo hi vals row :
  forall k n, (n < length row)%nat ->
    nth n (np.slice_add_from k lo hi vals row) 0
    = if in_span lo hi (k + Z.of_nat n)
      then nth n row 0 + nth (Z.to_nat (k + Z.of_nat n - lo)) vals 0
      else nth n row 0.
Proof.
  induction row as [| v row IH]; intros k n Hn; simpl in Hn; [lia |].
  destruct n as [| n]; simpl np.slice_add_from.
  - replace (k + Z.of_nat 0)%Z with k by lia. unfold in_span.
    destruct ((lo <=? k) && (k <? hi))%Z; reflexivity.
  - simpl nth at 1. rewrite IH by lia.
    replace (k + 1 + Z.of_nat n)%Z with (k + Z.of_nat (S n))%Z by lia.
    reflexivity.
Qed.

Lemma slice_add2_from_nth jlo jhi ilo ihi vals image :
  forall k n, (n < length image)%nat ->
    nth n (np.slice_add2_from k jlo jhi ilo ihi vals image) []
    = if in_span jlo jhi (k + Z.of_nat n)
      then np.slice_add ilo ihi
                        (nth (Z.to_nat (k + Z.of_nat n - jlo)) vals [])
                        (nth n image [])
      else nth n image [].
Proof.
  induction image as [| row image IH]; intros k n Hn; simpl in Hn; [lia |].
  destruct n as [| n]; simpl np.slice_add2_from.
  - replace (k + Z.of_nat 0)%Z with k by lia. unfold in_span.
    destruct ((jlo <=? k) && (k <? jhi))%Z; reflexivity.
  - simpl nth at 1. rewrite IH by lia.
    replace (k + 1 + Z.of_nat n)%Z with (k + Z.of_nat (S n))%Z by lia.
    reflexivity.
Qed.

Lemma slice_add2_from_shape jlo jhi ilo ihi vals cols image :
  forall k,
    Forall (fun row => length row = cols) image ->
    length (np.slice_add2_from k jlo jhi ilo ihi vals image) = length image
    /\ Forall (fun row => length row = cols)
              (np.slice_add2_from k jlo jhi ilo ihi vals image).
Proof.
  induction image as [| row image IH]; intros k H; simpl;
    [split; [reflexivity | constructor] |].
  inversion H as [| ? ? Hrow Himage]; subst.
  destruct (IH (k + 1)%Z Himage) as [Hl Hf]. split; [now rewrite Hl |].
  constructor; [| exact Hf].
  destruct ((jlo <=? k) && (k <? jhi))%Z;
    [now rewrite slice_add_length | reflexivity].
Qed.

Lemma stamp_add_shape s rows cols image :
  shape rows cols image -> shape rows cols (stamp_add s image).
Proof.
  intros [Hr Hc]. unfold stamp_add, np.slice_add2.
  destruct (slice_add2_from_shape (jlo s) (jhi s) (ilo s) (ihi s)
              (map (fun kj => map (fun ki => val s kj ki)
                                  (np.arange (ilo s) (ihi s)))
                   (np.arange (jlo s) (jhi s)))
              (Z.to_nat cols) image 0%Z Hc) as [Hl Hf].
  split; [now rewrite Hl | exact Hf].
Qed.

Lemma shape_row rows cols image j :
  shape rows cols image -> (0 <= j < rows)%Z ->
  length (nth (Z.to_nat j) image []) = Z.to_nat cols.
Proof.
  intros [Hr Hc] Hj. rewrite Forall_forall in Hc. apply Hc, nth_In. lia.
Qed.

Lemma pixel_stamp_add s rows cols image j i :
  shape rows cols image -> (0 <= j < rows)%Z -> (0 <= i < cols)%Z ->
  pixel (stamp_add s image) j i = pixel image j i + stamp_at s j i.
Proof.
  intros Hs Hj Hi. pose proof (shape_row _ _ _ _ Hs Hj) as Hrow.
  destruct Hs as [Hr Hc].
  unfold pixel, stamp_add, np.slice_add2, stamp_at.
  rewrite slice_add2_from_nth by lia.
  rewrite Z.add_0_l, Z2Nat.id by lia.
  destruct (in_span (jlo s) (jhi s) j) eqn:Ej; simpl andb; [| lra].
  unfold np.slice_add. rewrite slice_add_from_nth by lia.
  rewrite Z.add_0_l, Z2Nat.id by lia.
  destruct (in_span (ilo s) (ihi s) i) eqn:Ei; [| lra].
  unfold in_span in Ej, Ei.
  apply andb_true_iff in Ej, Ei.
  rewrite Z.leb_le, Z.ltb_lt in Ej, Ei.
  rewrite (nth_arange (fun kj => map (fun ki => val s kj ki)
                                     (np.arange (ilo s) (ihi s)))) by lia.
  now rewrite (nth_arange (fun ki => val s j ki)) by lia.
Qed.

Lemma pixel_fold_stamps rows cols j i stamps :
  forall image,
    shape rows cols image -> (0 <= j < rows)%Z -> (0 <= i < cols)%Z ->
    pixel (fold_left (fun img s => stamp_add s img) stamps image) j i
    = pixel image j i + Rsum (map (fun s => stamp_at s j i) stamps).
Proof.
  induction stamps as [| s stamps IH]; intros image Hs Hj Hi; simpl.
  - lra.
  - rewrite IH by (auto using stamp_add_shape).
    rewrite (pixel_stamp_add s rows cols) by assumption. lra.
Qed.

Lemma fold_stamps_shape rows cols stamps image :
  shape rows cols image ->
  shape rows cols (fold_left (fun img s => stamp_add s img) stamps image).
Proof.
  intros H. apply fold_left_invariant; [| exact H].
  intros img s Hs. now apply stamp_add_shape.
Qed.

Lemma zeros2_shape rows cols :
  (0 <= rows)%Z -> (0 <= cols)%Z ->
  np.zeros2 rows cols
  = ret (repeat (repeat 0 (Z.to_nat cols)) (Z.to_nat rows))
  /\ shape rows cols (repeat (repeat 0 (Z.to_nat cols)) (Z.to_nat rows)).
Proof.
  intros Hr Hc. unfold np.zeros2.
  replace ((rows <? 0) || (cols <? 0))%Z with false
    by (symmetry; apply orb_false_iff; split; apply Z.ltb_ge; lia).
  split; [reflexivity |]. split; [apply repeat_length |].
  apply Forall_forall. intros row Hin. apply repeat_spec in Hin. subst row.
  apply repeat_length.
Qed.

Lemma pixel_zeros rows cols j i :
  pixel (repeat (repeat 0 (Z.to_nat cols)) (Z.to_nat rows)) j i = 0.
Proof.
  unfold pixel.
  destruct (Nat.lt_ge_cases (Z.to_nat j) (Z.to_nat rows)) as [Hj | Hj].
  - rewrite (nth_indep _ [] (repeat 0 (Z.to_nat cols)))
      by now rewrite repeat_length.
    rewrite nth_repeat.
    destruct (Nat.lt_ge_cases (Z.to_nat i) (Z.to_nat cols)) as [Hi | Hi].
    + now rewrite nth_repeat.
    + now rewrite nth_overflow by now rewrite repeat_length.
  - rewrite (nth_overflow (repeat _ _)) by now rewrite repeat_length.
    now destruct (Z.to_nat i).
Qed.

(** Two images of one shape that agree at every pixel are equal. *)
Lemma image_ext rows cols a b :
  shape rows cols a -> shape rows cols b ->
  (forall j i, (0 <= j < rows)%Z -> (0 <= i < cols)%Z ->
               pixel a j i = pixel b j i) ->
  a = b.
Proof.
  intros Ha Hb H.
  apply (nth_ext _ _ [] []); [destruct Ha, Hb; congruence |].
  intros n Hn. destruct Ha as [Har Hac]. rewrite Har in Hn.
  assert (Hj : (0 <= Z.of_nat n < rows)%Z) by lia.
  pose proof (shape_row rows cols a _ (conj Har Hac) Hj) as Hla.
  pose proof (shape_row rows cols b _ Hb Hj) as Hlb.
  rewrite Nat2Z.id in Hla, Hlb.
  apply (nth_ext _ _ 0 0); [congruence |].
  intros k Hk. rewrite Hla in Hk.
  specialize (H (Z.of_nat n) (Z.of_nat k)). unfold pixel in H.
  rewrite !Nat2Z.id in H. apply H; lia.
Qed.


(** ** The grid projectors as sums of stamps *)

Lemma fold_left_map {A B St} (f : St -> B -> St) (g : A -> B) l s :
  fold_left f (map g l) s = fold_left (fun a r => f a (g r)) l s.
Proof. revert s; induction l as [| r l IH]; intros s; simpl; auto. Qed.

Lemma fast_2d_body_row data target x y kernel
      pixwidthx pixwidthy xmin ymin pixcountx pixcounty image i row :
  nth_error data i = Some row ->
  fast_2d.body (column data target) (column data x) (column data y)
               (w kernel) (get_radius kernel)
               (column data "m") (column data "rho") (column data "h")
               xmin ymin pixwidthx pixwidthy pixcountx pixcounty image i
  = stamp_add (row_stamp_2d kernel target x y pixwidthx pixwidthy xmin ymin
                            pixcountx pixcounty row) image.
Proof.
  intros H. unfold fast_2d.body, fast_2d.term, fast_2d.ipixmin,
    fast_2d.ipixmax, fast_2d.jpixmin, fast_2d.jpixmax, column.
  rewrite term_array_rows, !pix_lower_rows, !pix_upper_rows.
  rewrite !(nth_map_error _ data i row _ H).
  unfold stamp_add, row_stamp_2d, stamp_2d. cbn [jlo jhi ilo ihi val].
  rewrite !map_map. f_equal. apply map_ext. intros kj.
  rewrite !map_map. reflexivity.
Qed.

Lemma fast_2d_rows data target x y kernel
      pixwidthx pixwidthy xmin ymin pixcountx pixcounty :
  (0 <= pixcountx)%Z -> (0 <= pixcounty)%Z ->
  _fast_2d (column data target) (column data x) (column data y)
           (w kernel) (get_radius kernel)
           (column data "m") (column data "rho") (column data "h")
           xmin ymin pixwidthx pixwidthy pixcountx pixcounty
  = ret (fold_left (fun img s => stamp_add s img)
                   (map (row_stamp_2d kernel target x y pixwidthx pixwidthy
                                      xmin ymin pixcountx pixcounty) data)
                   (repeat (repeat 0 (Z.to_nat pixcountx))
                           (Z.to_nat pixcounty))).
Proof.
  intros Hx Hy. unfold _fast_2d, fast_2d.run.
  destruct (zeros2_shape pixcounty pixcountx Hy Hx) as [-> _]. simpl bind.
  f_equal. rewrite fold_left_map.
  replace (length (fast_2d.term (column data target) (column data "m")
                                (column data "rho") (column data "h")))
    with (length data)
    by (unfold fast_2d.term, column;
        now rewrite term_array_rows, length_map).
  apply fold_seq_rows. intros img i row Hi.
  now apply fast_2d_body_row.
Qed.

Lemma Rsum_filter {A} (keep : A -> bool) (f : A -> R) l :
  Rsum (map f (filter keep l))
  = Rsum (map (fun r => if keep r then f r else 0) l).
Proof.
  induction l as [| r l IH]; simpl; [reflexivity |].
  destruct (keep r); simpl; lra.
Qed.

Lemma fast_3d_cross_mask data zslice z kernel :
  fast_3d_cross.filter_distance (column data z) zslice (get_radius kernel)
                                (column data "h")
  = map (row_keep_3d_cross kernel zslice z) data.
Proof.
  unfold fast_3d_cross.filter_distance, fast_3d_cross.dz, column.
  now rewrite map_map, map2_map.
Qed.

Lemma fast_3d_cross_dz data zslice z :
  fast_3d_cross.dz (column data z) zslice
  = map (fun row : Row => zslice - row z) data.
Proof. unfold fast_3d_cross.dz, column. apply map_map. Qed.

Lemma fast_3d_cross_body_row data target zslice x y z kernel
      pixwidthx pixwidthy xmin ymin pixcountx pixcounty image i row :
  nth_error (filter (row_keep_3d_cross kernel zslice z) data) i = Some row ->
  fast_3d_cross.body (column data target) (column data x) (column data y)
                     (column data z) (w kernel) zslice (get_radius kernel)
                     (column data "m") (column data "rho") (column data "h")
                     pixwidthx pixwidthy xmin ymin pixcountx pixcounty image i
  = stamp_add (row_stamp_3d_cross kernel target zslice x y z
                                  pixwidthx pixwidthy xmin ymin
                                  pixcountx pixcounty row) image.
Proof.
  intros H. unfold fast_3d_cross.body, fast_3d_cross.term,
    fast_3d_cross.ipixmin, fast_3d_cross.ipixmax, fast_3d_cross.jpixmin,
    fast_3d_cross.jpixmax.
  rewrite fast_3d_cross_mask, fast_3d_cross_dz. unfold column.
  rewrite term_array_rows, !compress_map.
  rewrite !pix_lower_rows, !pix_upper_rows.
  rewrite !(nth_map_error _ _ i row _ H).
  unfold stamp_add, row_stamp_3d_cross, stamp_3d_cross.
  cbn [jlo jhi ilo ihi val].
  rewrite !map_map. f_equal. apply map_ext. intros kj.
  rewrite !map_map. reflexivity.
Qed.

Lemma fast_3d_cross_rows data target zslice x y z kernel
      pixwidthx pixwidthy xmin ymin pixcountx pixcounty :
  (0 <= pixcountx)%Z -> (0 <= pixcounty)%Z ->
  _fast_3d_cross (column data target) (column data x) (column data y)
                 (column data z) (w kernel) zslice (get_radius kernel)
                 (column data "m") (column data "rho") (column data "h")
                 pixwidthx pixwidthy xmin ymin pixcountx pixcounty
  = ret (fold_left (fun img s => stamp_add s img)
                   (map (row_stamp_3d_cross kernel target zslice x y z
                                            pixwidthx pixwidthy xmin ymin
                                            pixcountx pixcounty)
                        (filter (row_keep_3d_cross kernel zslice z) data))
                   (repeat (repeat 0 (Z.to_nat pixcountx))
                           (Z.to_nat pixcounty))).
Proof.
  intros Hx Hy. unfold _fast_3d_cross, fast_3d_cross.run.
  destruct (zeros2_shape pixcounty pixcountx Hy Hx) as [-> _]. simpl bind.
  f_equal. rewrite fold_left_map.
  replace (length (np.compress
                     (fast_3d_cross.filter_distance
                        (column data z) zslice (get_radius kernel)
                        (column data "h"))
                     (column data x)))
    with (length (filter (row_keep_3d_cross kernel zslice z) data))
    by (rewrite fast_3d_cross_mask; unfold column;
        now rewrite compress_map, length_map).
  apply fold_seq_rows. intros img i row Hi.
  now apply fast_3d_cross_body_row.
Qed.

(** Every pixel of the image of [interpolate_2d] is the sum of the stamps of
    the particles. *)
Lemma interpolate_2d_pixels data target x y kernel
      pixwidthx pixwidthy xmin ymin pixcountx pixcounty :
  0 < pixwidthx -> 0 < pixwidthy -> (0 < pixcountx)%Z -> (0 < pixcounty)%Z ->
  exists image,
    interpolate_2d data target x y kernel pixwidthx pixwidthy xmin ymin
                   pixcountx pixcounty = inr image
    /\ shape pixcounty pixcountx image
    /\ forall j i,
        (0 <= j < pixcounty)%Z -> (0 <= i < pixcountx)%Z ->
        pixel image j i
        = Rsum (map (fun row =>
                       stamp_at (row_stamp_2d kernel target x y
                                              pixwidthx pixwidthy xmin ymin
                                              pixcountx pixcounty row) j i)
                    data).
Proof.
  intros Hwx Hwy Hcx Hcy. unfold interpolate_2d, weight.
  replace (Rleb pixwidthx 0) with false by (symmetry; now apply Rleb_false).
  replace (Rleb pixwidthy 0) with false by (symmetry; now apply Rleb_false).
  replace (pixcountx <=? 0)%Z with false by (symmetry; apply Z.leb_gt; lia).
  replace (pixcounty <=? 0)%Z with false by (symmetry; apply Z.leb_gt; lia).
  rewrite fast_2d_rows by lia.
  destruct (zeros2_shape pixcounty pixcountx) as [_ Hz]; [lia | lia |].
  eexists; split; [reflexivity | split].
  - now apply fold_stamps_shape.
  - intros j i Hj Hi.
    rewrite (pixel_fold_stamps pixcounty pixcountx) by assumption.
    rewrite pixel_zeros, map_map. lra.
Qed.

(** The same for [interpolate_3d_cross], over the particles the mask keeps. *)
Lemma interpolate_3d_cross_pixels data target zslice x y z kernel
      pixwidthx pixwidthy xmin ymin pixcountx pixcounty :
  0 < pixwidthx -> 0 < pixwidthy -> (0 < pixcountx)%Z -> (0 < pixcounty)%Z ->
  exists image,
    interpolate_3d_cross data target zslice x y z kernel
                         pixwidthx pixwidthy xmin ymin pixcountx pixcounty
    = inr image
    /\ shape pixcounty pixcountx image
    /\ forall j i,
        (0 <= j < pixcounty)%Z -> (0 <= i < pixcountx)%Z ->
        pixel image j i
        = Rsum (map (fun row =>
                       if row_keep_3d_cross kernel zslice z row
                       then stamp_at (row_stamp_3d_cross
                                        kernel target zslice x y z
                                        pixwidthx pixwidthy xmin ymin
                                        pixcountx pixcounty row) j i
                       else 0)
                    data).
Proof.
  intros Hwx Hwy Hcx Hcy. unfold interpolate_3d_cross, weight.
  replace (Rleb pixwidthx 0) with false by (symmetry; now apply Rleb_false).
  replace (Rleb pixwidthy 0) with false by (symmetry; now apply Rleb_false).
  replace (pixcountx <=? 0)%Z with false by (symmetry; apply Z.leb_gt; lia).
  replace (pixcounty <=? 0)%Z with false by (symmetry; apply Z.leb_gt; lia).
  rewrite fast_3d_cross_rows by lia.
  destruct (zeros2_shape pixcounty pixcountx) as [_ Hz]; [lia | lia |].
  eexists; split; [reflexivity | split].
  - now apply fold_stamps_shape.
  - intros j i Hj Hi.
    rewrite (pixel_fold_stamps pixcounty pixcountx) by assumption.
    rewrite pixel_zeros, map_map, <- Rsum_filter. lra.
Qed.

(** ** The line projector as a sum of stamps *)













(** ** The column projector *)











(** ** C2: the weight lookup of the column projector *)


(** ** C8: the quadratic of the line projector *)







Lemma example_row_x xx yy zz : example_row xx yy zz "x"%string = xx.
Proof. reflexivity. Qed.



Lemma example_row_h xx yy zz : example_row xx yy zz "h"%string = 1.
Proof. reflexivity. Qed.





(** ** C6: the slice filter of the plane projector *)


Lemma rint_bounds x : x - 1 / 2 <= IZR (np.rint x) <= x + 1 / 2.
Proof.
  unfold np.rint. destruct (base_Int_part x) as [Hlo Hhi].
  assert (Hf : frac_part x = x - IZR (Int_part x)) by reflexivity.
  destruct (Rlt_dec (frac_part x) (1 / 2)) as [H1 | H1].
  - lra.
  - destruct (Rlt_dec (1 / 2) (frac_part x)) as [H2 | H2].
    + rewrite plus_IZR. simpl (IZR 1). lra.
    + destruct (Z.even (Int_part x)).
      * lra.
      * rewrite plus_IZR. simpl (IZR 1). lra.
Qed.

Lemma clip_rint_below x n :
  x <= - (1 / 2) -> (0 <= n)%Z -> np.clipZ (np.rint x) 0 n = 0%Z.
Proof.
  intros Hx Hn. destruct (rint_bounds x) as [_ Hhi].
  assert (H : (np.rint x <= 0)%Z) by (apply le_IZR; lra).
  unfold np.clipZ. lia.
Qed.

Lemma clip_rint_above x n :
  IZR n + 1 / 2 <= x -> (0 <= n)%Z -> np.clipZ (np.rint x) 0 n = n.
Proof.
  intros Hx Hn. destruct (rint_bounds x) as [Hlo _].
  assert (H : (n <= np.rint x)%Z) by (apply le_IZR; lra).
  unfold np.clipZ. lia.
Qed.




(** ** C5: order independence *)



















(** ** C4: compact support *)

Lemma cubic_spline_zero q ndim : 2 <= q -> CubicSplineKernel.w q ndim = 0.
Proof.
  intros H. unfold CubicSplineKernel.w.
  replace (Rltb q 1.0) with false by (symmetry; apply Rltb_false; lra).
  replace (Rltb q 2.0) with false by (symmetry; apply Rltb_false; lra).
  unfold b2r. now rewrite !Rmult_0_r, Rplus_0_l, Rmult_0_r.
Qed.



















(** ** C7: the per-particle coefficient *)





(** * Further properties of the projectors and kernels *)

(** ** Output shape and the empty particle set *)

Lemma valid_grid_example : valid_grid 1 1 2 1.
Proof. unfold valid_grid. repeat split; try lra; lia. Qed.



(** ** Superposition *)




(** ** Linearity in the target column *)







(** ** Lines drawn from right to left *)


Lemma slice_add_from_empty lo hi vals row :
  (hi <= lo)%Z -> forall k, np.slice_add_from k lo hi vals row = row.
Proof.
  intros H. induction row as [| v row IH]; intros k; simpl; [reflexivity |].
  rewrite IH.
  replace ((lo <=? k) && (k <? hi))%Z with false; [reflexivity |].
  symmetry. apply andb_false_iff.
  destruct (Z.leb_spec lo k); [right; apply Z.ltb_ge; lia | now left].
Qed.





(** ** Particles off the grid *)

Lemma slice_add2_from_empty jlo jhi ilo ihi vals image :
  (jhi <= jlo)%Z \/ (ihi <= ilo)%Z ->
  forall k, np.slice_add2_from k jlo jhi ilo ihi vals image = image.
Proof.
  intros H. induction image as [| row image IH]; intros k; simpl;
    [reflexivity |].
  rewrite IH. f_equal.
  destruct ((jlo <=? k) && (k <? jhi))%Z eqn:E; [| reflexivity].
  destruct H as [H | H].
  - apply andb_true_iff in E. rewrite Z.leb_le, Z.ltb_lt in E. lia.
  - unfold np.slice_add. now apply slice_add_from_empty.
Qed.

Lemma stamp_add_empty s image :
  (jhi s <= jlo s)%Z \/ (ihi s <= ilo s)%Z -> stamp_add s image = image.
Proof.
  intros H. unfold stamp_add, np.slice_add2. now apply slice_add2_from_empty.
Qed.

Lemma clipZ_bounds a n : (0 <= n)%Z -> (0 <= np.clipZ a 0 n <= n)%Z.
Proof. intros H. unfold np.clipZ. lia. Qed.

(** A support that ends half a pixel or more before the first pixel, or
    starts half a pixel or more after the last one, has an empty index
    range. *)
Lemma span_empty c hh k_rad cmin pixwidth pixcount :
  0 < pixwidth -> (0 <= pixcount)%Z ->
  c + k_rad * hh <= cmin - pixwidth / 2
  \/ cmin + (IZR pixcount + 1 / 2) * pixwidth <= c - k_rad * hh ->
  (span_hi c hh k_rad cmin pixwidth pixcount
   <= span_lo c hh k_rad cmin pixwidth pixcount)%Z.
Proof.
  intros Hw Hn [H | H]; unfold span_hi, span_lo.
  - rewrite (clip_rint_below ((c + k_rad * hh - cmin) / pixwidth)).
    + apply clipZ_bounds. exact Hn.
    + apply (Rmult_le_reg_r pixwidth); [exact Hw |].
      unfold Rdiv. rewrite Rmult_assoc, Rinv_l by lra. lra.
    + exact Hn.
  - rewrite (clip_rint_above ((c - k_rad * hh - cmin) / pixwidth)).
    + apply clipZ_bounds. exact Hn.
    + apply (Rmult_le_reg_r pixwidth); [exact Hw |].
      unfold Rdiv. rewrite Rmult_assoc, Rinv_l by lra. lra.
    + exact Hn.
Qed.

Lemma fold_stamps_drop before s after image :
  stamp_add s (fold_left (fun img s => stamp_add s img) before image)
  = fold_left (fun img s => stamp_add s img) before image ->
  fold_left (fun img s => stamp_add s img) (before ++ s :: after) image
  = fold_left (fun img s => stamp_add s img) (before ++ after) image.
Proof. intros H. rewrite !fold_left_app. simpl. now rewrite H. Qed.

(** A particle whose support [[c - k_rad * h, c + k_rad * h]] along x or
    along y lies off the grid by half a pixel or more changes nothing:
    [interpolate_2d] and [interpolate_3d_cross] return what they return
    without it. *)
Theorem off_grid_particle
        (before after : SarracenDataFrame) (row : Row)
        (target x y z : string) (kernel : Kernel)
        (zslice pixwidthx pixwidthy xmin ymin : R) (pixcountx pixcounty : Z) :
  let reach := get_radius kernel * row "h"%string in
  valid_grid pixwidthx pixwidthy pixcountx pixcounty ->
  row x + reach <= xmin - pixwidthx / 2
  \/ xmin + (IZR pixcountx + 1 / 2) * pixwidthx <= row x - reach
  \/ row y + reach <= ymin - pixwidthy / 2
  \/ ymin + (IZR pixcounty + 1 / 2) * pixwidthy <= row y - reach ->
  interpolate_2d (before ++ row :: after) target x y kernel
                 pixwidthx pixwidthy xmin ymin pixcountx pixcounty
  = interpolate_2d (before ++ after) target x y kernel
                   pixwidthx pixwidthy xmin ymin pixcountx pixcounty
  /\ interpolate_3d_cross (before ++ row :: after) target zslice x y z kernel
                          pixwidthx pixwidthy xmin ymin pixcountx pixcounty
     = interpolate_3d_cross (before ++ after) target zslice x y z kernel
                            pixwidthx pixwidthy xmin ymin pixcountx pixcounty.
Proof.
  intros reach (Hwx & Hwy & Hcx & Hcy) Hoff.
  assert (Hspan :
            (span_hi (row y) (row "h"%string) (get_radius kernel) ymin
                     pixwidthy pixcounty
             <= span_lo (row y) (row "h"%string) (get_radius kernel) ymin
                        pixwidthy pixcounty)%Z
            \/ (span_hi (row x) (row "h"%string) (get_radius kernel) xmin
                        pixwidthx pixcountx
                <= span_lo (row x) (row "h"%string) (get_radius kernel) xmin
                           pixwidthx pixcountx)%Z).
  { destruct Hoff as [H | [H | [H | H]]].
    - right. apply span_empty; [exact Hwx | lia | now left].
    - right. apply span_empty; [exact Hwx | lia | now right].
    - left. apply span_empty; [exact Hwy | lia | now left].
    - left. apply span_empty; [exact Hwy | lia | now right]. }
  split.
  - unfold interpolate_2d, weight.
    replace (Rleb pixwidthx 0) with false by (symmetry; now apply Rleb_false).
    replace (Rleb pixwidthy 0) with false by (symmetry; now apply Rleb_false).
    replace (pixcountx <=? 0)%Z with false by (symmetry; apply Z.leb_gt; lia).
    replace (pixcounty <=? 0)%Z with false by (symmetry; apply Z.leb_gt; lia).
    rewrite !fast_2d_rows by lia. unfold ret. f_equal.
    rewrite !map_app. cbn [map]. apply fold_stamps_drop.
    apply stamp_add_empty. exact Hspan.
  - unfold interpolate_3d_cross, weight.
    replace (Rleb pixwidthx 0) with false by (symmetry; now apply Rleb_false).
    replace (Rleb pixwidthy 0) with false by (symmetry; now apply Rleb_false).
    replace (pixcountx <=? 0)%Z with false by (symmetry; apply Z.leb_gt; lia).
    replace (pixcounty <=? 0)%Z with false by (symmetry; apply Z.leb_gt; lia).
    rewrite !fast_3d_cross_rows by lia. unfold ret. f_equal.
    rewrite !filter_app. cbn [filter].
    destruct (row_keep_3d_cross kernel zslice z row); [| reflexivity].
    rewrite !map_app. cbn [map]. apply fold_stamps_drop.
    apply stamp_add_empty. exact Hspan.
Qed.

Lemma off_grid_particle_witness :
  interpolate_2d ([] ++ example_row (- 3) 0.5 0 :: []) "rho" "x" "y"
                 CubicSplineKernel.class 1 1 0 0 2 1
  = interpolate_2d ([] ++ []) "rho" "x" "y" CubicSplineKernel.class 1 1 0 0 2 1
  /\ interpolate_3d_cross ([] ++ example_row (- 3) 0.5 0 :: []) "rho" 0
                          "x" "y" "z" CubicSplineKernel.class 1 1 0 0 2 1
     = interpolate_3d_cross ([] ++ []) "rho" 0 "x" "y" "z"
                            CubicSplineKernel.class 1 1 0 0 2 1.
Proof.
  apply (off_grid_particle [] [] (example_row (- 3) 0.5 0) "rho" "x" "y" "z"
                           CubicSplineKernel.class 0 1 1 0 0 2 1).
  - exact valid_grid_example.
  - left. rewrite example_row_x, example_row_h.
    change (get_radius CubicSplineKernel.class) with 2.0. lra.
Defined.

(** ** The cubic spline *)

Lemma spline_norm_pos ndim : 0 < spline_norm ndim.
Proof.
  unfold spline_norm. pose proof PI_RGT_0 as Hpi.
  destruct (ndim =? 1)%Z; [lra |].
  destruct (ndim =? 2)%Z.
  - apply Rdiv_lt_0_compat; lra.
  - apply Rdiv_lt_0_compat; lra.
Qed.

Lemma cubic_spline_norm q ndim :
  CubicSplineKernel.w q ndim
  = spline_norm ndim
    * ((1 - 3 / 2 * q * q + 3 / 4 * q * q * q)
         * b2r (Rleb 0 q) * b2r (Rltb q 1)
       + 1 / 4 * (2 - q) * (2 - q) * (2 - q)
         * b2r (Rleb 1 q) * b2r (Rltb q 2)).
Proof.
  unfold CubicSplineKernel.w, spline_norm.
  replace 0.0 with 0 by lra. replace 1.0 with 1 by lra.
  replace 2.0 with 2 by lra. replace 1.5 with (3 / 2) by lra.
  replace 0.75 with (3 / 4) by lra. replace 0.25 with (1 / 4) by lra.
  replace 3.0 with 3 by lra. replace 10.0 with 10 by lra.
  replace 7.0 with 7 by lra. reflexivity.
Qed.

Lemma cubic_spline_negative q ndim : q < 0 -> CubicSplineKernel.w q ndim = 0.
Proof.
  intros H. rewrite cubic_spline_norm.
  replace (Rleb 0 q) with false by (symmetry; apply Rleb_false; lra).
  replace (Rleb 1 q) with false by (symmetry; apply Rleb_false; lra).
  unfold b2r. ring.
Qed.

Lemma cubic_spline_inner q ndim :
  0 <= q < 1 ->
  CubicSplineKernel.w q ndim
  = spline_norm ndim * (1 - 3 / 2 * q * q + 3 / 4 * q * q * q).
Proof.
  intros [H0 H1]. rewrite cubic_spline_norm.
  replace (Rleb 0 q) with true by (symmetry; apply Rleb_true; lra).
  replace (Rltb q 1) with true by (symmetry; apply Rltb_true; lra).
  replace (Rleb 1 q) with false by (symmetry; apply Rleb_false; lra).
  unfold b2r. ring.
Qed.

Lemma cubic_spline_tail q ndim :
  1 <= q < 2 ->
  CubicSplineKernel.w q ndim
  = spline_norm ndim * (1 / 4 * (2 - q) * (2 - q) * (2 - q)).
Proof.
  intros [H0 H1]. rewrite cubic_spline_norm.
  replace (Rleb 0 q) with true by (symmetry; apply Rleb_true; lra).
  replace (Rltb q 1) with false by (symmetry; apply Rltb_false; lra).
  replace (Rleb 1 q) with true by (symmetry; apply Rleb_true; lra).
  replace (Rltb q 2) with true by (symmetry; apply Rltb_true; lra).
  unfold b2r. ring.
Qed.

Lemma inner_profile_bounds q :
  0 <= q < 1 -> 1 / 4 < 1 - 3 / 2 * q * q + 3 / 4 * q * q * q <= 1.
Proof.
  intros [H0 H1]. split.
  - assert (E : 1 - 3 / 2 * q * q + 3 / 4 * q * q * q
                = 1 / 4 + 3 / 4 * ((1 - q) * (1 + q * (1 - q)))) by field.
    rewrite E.
    assert (0 < (1 - q) * (1 + q * (1 - q))).
    { apply Rmult_lt_0_compat; [lra |].
      assert (0 <= q * (1 - q)) by (apply Rmult_le_pos; lra). lra. }
    lra.
  - assert (E : 1 - 3 / 2 * q * q + 3 / 4 * q * q * q
                = 1 - q * q * (3 / 2 - 3 / 4 * q)) by field.
    rewrite E.
    assert (0 <= q * q * (3 / 2 - 3 / 4 * q)).
    { apply Rmult_le_pos; [apply Rmult_le_pos; lra | lra]. }
    lra.
Qed.

Lemma tail_profile_bounds q :
  1 <= q < 2 -> 0 < 1 / 4 * (2 - q) * (2 - q) * (2 - q) <= 1 / 4.
Proof.
  intros [H1 H2]. set (u := 2 - q).
  assert (Hu : 0 < u <= 1) by (unfold u; lra).
  assert (0 < u * u) by (apply Rmult_lt_0_compat; lra).
  assert (u * u <= 1) by nra.
  assert (0 < u * u * u) by (apply Rmult_lt_0_compat; lra).
  assert (u * u * u <= 1) by nra.
  lra.
Qed.

Lemma cubic_spline_nonneg q ndim : 0 <= CubicSplineKernel.w q ndim.
Proof.
  pose proof (spline_norm_pos ndim) as Hn.
  destruct (Rlt_dec q 0) as [Hneg | Hpos];
    [rewrite cubic_spline_negative by exact Hneg; lra |].
  destruct (Rlt_dec q 1) as [H1 | H1].
  - rewrite cubic_spline_inner by lra.
    pose proof (inner_profile_bounds q ltac:(lra)). apply Rmult_le_pos; lra.
  - destruct (Rlt_dec q 2) as [H2 | H2].
    + rewrite cubic_spline_tail by lra.
      pose proof (tail_profile_bounds q ltac:(lra)). apply Rmult_le_pos; lra.
    + rewrite cubic_spline_zero by lra. lra.
Qed.

(** The cubic spline is never negative, never above its value at the
    particle's position, which is the normalisation constant of the
    dimension, and it is positive exactly for [0 <= q < 2]; a dimension other
    than 1 and 2 gets the constant of three dimensions. *)
Theorem cubic_spline_profile (q : R) (ndim : Z) :
  0 <= CubicSplineKernel.w q ndim <= CubicSplineKernel.w 0 ndim
  /\ CubicSplineKernel.w 0 ndim = spline_norm ndim
  /\ (0 < CubicSplineKernel.w q ndim <-> 0 <= q < 2)
  /\ (ndim <> 1%Z -> ndim <> 2%Z ->
      CubicSplineKernel.w q ndim = CubicSplineKernel.w q 3).
Proof.
  pose proof (spline_norm_pos ndim) as Hn.
  assert (H0 : CubicSplineKernel.w 0 ndim = spline_norm ndim).
  { rewrite cubic_spline_inner by lra. ring. }
  split; [| split; [exact H0 | split]].
  - split; [apply cubic_spline_nonneg |]. rewrite H0.
    destruct (Rlt_dec q 0) as [Hneg | Hpos];
      [rewrite cubic_spline_negative by exact Hneg; lra |].
    destruct (Rlt_dec q 1) as [H1 | H1].
    + rewrite cubic_spline_inner by lra.
      pose proof (inner_profile_bounds q ltac:(lra)). nra.
    + destruct (Rlt_dec q 2) as [H2 | H2].
      * rewrite cubic_spline_tail by lra.
        pose proof (tail_profile_bounds q ltac:(lra)). nra.
      * rewrite cubic_spline_zero by lra. lra.
  - split.
    + intros Hw.
      destruct (Rlt_dec q 0) as [Hneg | Hpos];
        [rewrite cubic_spline_negative in Hw by exact Hneg; lra |].
      destruct (Rlt_dec q 2) as [H2 | H2]; [lra |].
      rewrite cubic_spline_zero in Hw by lra. lra.
    + intros [Hq0 Hq2].
      destruct (Rlt_dec q 1) as [H1 | H1].
      * rewrite cubic_spline_inner by lra.
        pose proof (inner_profile_bounds q ltac:(lra)).
        apply Rmult_lt_0_compat; lra.
      * rewrite cubic_spline_tail by lra.
        pose proof (tail_profile_bounds q ltac:(lra)).
        apply Rmult_lt_0_compat; lra.
  - intros N1 N2. rewrite !cubic_spline_norm. f_equal.
    unfold spline_norm.
    replace (ndim =? 1)%Z with false by (symmetry; now apply Z.eqb_neq).
    replace (ndim =? 2)%Z with false by (symmetry; now apply Z.eqb_neq).
    reflexivity.
Qed.

(** The cubic spline does not increase with the distance. *)
Theorem cubic_spline_monotone (q1 q2 : R) (ndim : Z) :
  0 <= q1 -> q1 <= q2 ->
  CubicSplineKernel.w q2 ndim <= CubicSplineKernel.w q1 ndim.
Proof.
  intros H0 H12. pose proof (spline_norm_pos ndim) as Hn.
  destruct (Rlt_dec q2 2) as [H22 | H22];
    [| rewrite (cubic_spline_zero q2) by lra; apply cubic_spline_nonneg].
  destruct (Rlt_dec q1 1) as [H11 | H11].
  - rewrite (cubic_spline_inner q1) by lra.
    destruct (Rlt_dec q2 1) as [H21 | H21].
    + rewrite (cubic_spline_inner q2) by lra.
      apply Rmult_le_compat_l; [lra |].
      assert (E : (1 - 3 / 2 * q1 * q1 + 3 / 4 * q1 * q1 * q1)
                  - (1 - 3 / 2 * q2 * q2 + 3 / 4 * q2 * q2 * q2)
                  = 3 / 4 * ((q2 - q1)
                             * (q2 * (2 - q2) + q1 * (1 - q1)
                                + q1 * (1 - q2)))) by field.
      assert (0 <= (q2 - q1)
                   * (q2 * (2 - q2) + q1 * (1 - q1) + q1 * (1 - q2))).
      { apply Rmult_le_pos; [lra |].
        assert (0 <= q2 * (2 - q2)) by (apply Rmult_le_pos; lra).
        assert (0 <= q1 * (1 - q1)) by (apply Rmult_le_pos; lra).
        assert (0 <= q1 * (1 - q2)) by (apply Rmult_le_pos; lra).
        lra. }
      lra.
    + rewrite (cubic_spline_tail q2) by lra.
      apply Rmult_le_compat_l; [lra |].
      pose proof (inner_profile_bounds q1 ltac:(lra)).
      pose proof (tail_profile_bounds q2 ltac:(lra)). lra.
  - rewrite (cubic_spline_tail q1), (cubic_spline_tail q2) by lra.
    apply Rmult_le_compat_l; [lra |].
    set (u := 2 - q1). set (v := 2 - q2).
    assert (Hv : 0 < v <= u) by (unfold u, v; lra).
    assert (v * v <= u * u) by nra.
    assert (v * v * v <= u * u * u) by nra.
    lra.
Qed.

Lemma cubic_spline_monotone_witness :
  CubicSplineKernel.w 1 3 <= CubicSplineKernel.w 0.5 3.
Proof. apply (cubic_spline_monotone 0.5 1 3); lra. Defined.

(** ** The column table and its cache *)

Lemma int_func_negative radius samples wfunc :
  (samples < 0)%Z ->
  BaseKernel._int_func radius samples wfunc
  = raise (if (samples =? -1)%Z
           then IndexError "index out of bounds"
           else ValueError "negative dimensions are not allowed").
Proof.
  intros Hs. unfold BaseKernel._int_func, np.zeros.
  destruct (samples =? -1)%Z eqn:E.
  - apply Z.eqb_eq in E; subst samples. reflexivity.
  - apply Z.eqb_neq in E.
    replace (samples + 1 <? 0)%Z with true by (symmetry; apply Z.ltb_lt; lia).
    reflexivity.
Qed.


Lemma Rsum_nonneg l : Forall (fun v => 0 <= v) l -> 0 <= Rsum l.
Proof.
  induction 1 as [| v l Hv _ IH]; simpl; [lra |]. lra.
Qed.

Lemma column_entry_nonneg radius samples wfunc i :
  (forall q ndim, 0 <= wfunc q ndim) ->
  0 <= BaseKernel.column_entry radius samples wfunc i.
Proof.
  intros Hw. unfold BaseKernel.column_entry. rewrite coldens_sum.
  set (dz := sqrt _ / 99).
  assert (Hdz : 0 <= dz).
  { unfold dz, Rdiv. apply Rmult_le_pos; [apply sqrt_pos | lra]. }
  assert (0 <= fold_right Rplus 0
                 (map (fun j => (if ((j =? 0) || (j =? 99))%Z
                                 then 1 / 2 else 1)
                                * column_integrand
                                    wfunc
                                    (IZR i * (radius * radius / IZR samples))
                                    (IZR j * dz) * dz)
                      (range 100))).
  { apply (Rsum_nonneg _). apply Forall_forall. intros v Hv.
    apply in_map_iff in Hv. destruct Hv as [j [<- _]].
    apply Rmult_le_pos; [| exact Hdz].
    apply Rmult_le_pos; [destruct ((j =? 0) || (j =? 99))%Z; lra |].
    unfold column_integrand. apply Hw. }
  lra.
Qed.

(** For a weight function that is never negative, no entry of the column
    table is negative. *)
Theorem column_table_nonneg
        (radius : R) (samples : Z) (wfunc : R -> Z -> R) (table : list R) :
  (forall q ndim, 0 <= wfunc q ndim) ->
  BaseKernel._int_func radius samples wfunc = inr table ->
  Forall (fun v => 0 <= v) table.
Proof.
  intros Hw Ht.
  destruct (Z_lt_le_dec samples 0) as [Hneg | Hpos].
  - rewrite int_func_negative in Ht by exact Hneg. discriminate Ht.
  - rewrite int_func_table in Ht by exact Hpos.
    assert (E : table
                = map (BaseKernel.column_entry radius samples wfunc)
                      (range samples) ++ [0])
      by (unfold ret in Ht; congruence).
    rewrite E. apply Forall_app. split.
    + apply Forall_forall. intros v Hv. apply in_map_iff in Hv.
      destruct Hv as [i [<- _]]. now apply column_entry_nonneg.
    + apply Forall_cons; [lra | apply Forall_nil].
Qed.

Lemma column_table_nonneg_witness :
  exists table,
    BaseKernel._int_func 2 1 CubicSplineKernel.w = inr table
    /\ Forall (fun v => 0 <= v) table.
Proof.
  eexists. split; [rewrite int_func_table by lia; reflexivity |].
  apply (column_table_nonneg 2 1 CubicSplineKernel.w).
  - exact cubic_spline_nonneg.
  - rewrite int_func_table by lia. reflexivity.
Defined.

(** A call of [get_column_kernel] repeated at once returns the same result
    and leaves the object as the first call left it; only a call for 1000
    samples can change the object, and the attribute
    [_ckernel_func_cache] is never written. *)
Theorem column_cache_idempotent
        (self : Kernel) (samples : Z) (st : KernelState) :
  let first := BaseKernel.get_column_kernel self samples st in
  BaseKernel.get_column_kernel self samples (snd first) = first
  /\ (samples <> 1000%Z -> snd first = st)
  /\ _ckernel_func_cache (snd first) = _ckernel_func_cache st
  /\ (forall table,
        samples = 1000%Z -> fst first = inr table ->
        _column_cache (snd first) = Some table).
Proof.
  cbv zeta. unfold BaseKernel.get_column_kernel.
  destruct (samples =? 1000)%Z eqn:E;
    [apply Z.eqb_eq in E | apply Z.eqb_neq in E];
    destruct (_column_cache st) as [cached |] eqn:Hcache;
    try destruct (BaseKernel._int_func (get_radius self) samples (w self))
      as [e | c_kernel] eqn:Hint;
    cbn [fst snd _column_cache _ckernel_func_cache];
    rewrite ?Hcache;
    (split; [reflexivity | split; [| split; [reflexivity |]]]);
    try (intros N; first [contradiction | reflexivity]);
    try (intros table Hs Ht; first [contradiction | discriminate Ht
                                    | unfold ret in Ht; congruence]).
Qed.

Lemma get_column_kernel_any self samples st :
  cache_ok self st ->
  fst (BaseKernel.get_column_kernel self samples st)
  = BaseKernel._int_func (get_radius self) samples (w self)
  /\ cache_ok self (snd (BaseKernel.get_column_kernel self samples st))
  /\ _ckernel_func_cache (snd (BaseKernel.get_column_kernel self samples st))
     = _ckernel_func_cache st.
Proof.
  intros Hc.
  destruct (Z_lt_le_dec samples 0) as [Hneg | Hpos].
  - unfold BaseKernel.get_column_kernel.
    replace (samples =? 1000)%Z with false by (symmetry; apply Z.eqb_neq; lia).
    rewrite int_func_negative by exact Hneg.
    cbn [fst snd]. repeat split; [exact Hc].
  - destruct (get_column_kernel_table self samples st Hpos Hc) as [H1 H2].
    repeat split; [exact H1 | exact H2 |].
    unfold BaseKernel.get_column_kernel.
    destruct (samples =? 1000)%Z, (_column_cache st);
      try reflexivity;
      destruct (BaseKernel._int_func _ _ _); reflexivity.
Qed.

Lemma reachable_inv self st :
  reachable self st -> cache_ok self st /\ _ckernel_func_cache st = None.
Proof.
  induction 1 as [| samples st _ [IHc IHf] | samples st _ [IHc IHf]].
  - split; [apply cache_ok_init | reflexivity].
  - destruct (get_column_kernel_any self samples st IHc) as (_ & H2 & H3).
    split; [exact H2 | now rewrite H3].
  - unfold BaseKernel.get_column_kernel_func. rewrite IHf.
    destruct (get_column_kernel_any self samples st IHc) as (_ & H2 & H3).
    split; [exact H2 | now rewrite H3].
Qed.

(** On an object that only its own column methods have touched since
    [__init__], the cache is transparent: [get_column_kernel] returns what
    [_int_func] computes for the kernel, whatever was stored before,
    [get_column_kernel_func] does the same as [get_column_kernel], and
    [_ckernel_func_cache] is still [None]. *)
Theorem column_cache_transparent
        (self : Kernel) (samples : Z) (st : KernelState) :
  reachable self st ->
  fst (BaseKernel.get_column_kernel self samples st)
  = BaseKernel._int_func (get_radius self) samples (w self)
  /\ BaseKernel.get_column_kernel_func self samples st
     = BaseKernel.get_column_kernel self samples st
  /\ _ckernel_func_cache st = None.
Proof.
  intros Hr. destruct (reachable_inv self st Hr) as [Hc Hf].
  destruct (get_column_kernel_any self samples st Hc) as (H1 & _ & _).
  repeat split; [exact H1 | | exact Hf].
  unfold BaseKernel.get_column_kernel_func. now rewrite Hf.
Qed.

Lemma column_cache_transparent_witness :
  let st := snd (BaseKernel.get_column_kernel CubicSplineKernel.class 1000
                                              BaseKernel.__init__) in
  fst (BaseKernel.get_column_kernel CubicSplineKernel.class 1000 st)
  = BaseKernel._int_func (get_radius CubicSplineKernel.class) 1000
                         (w CubicSplineKernel.class)
  /\ BaseKernel.get_column_kernel_func CubicSplineKernel.class 1000 st
     = BaseKernel.get_column_kernel CubicSplineKernel.class 1000 st
  /\ _ckernel_func_cache st = None.
Proof.
  cbv zeta.
  apply (column_cache_transparent
           CubicSplineKernel.class 1000
           (snd (BaseKernel.get_column_kernel CubicSplineKernel.class 1000
                                              BaseKernel.__init__))).
  apply reachable_column. apply reachable_init.
Defined.

(** ** The outcome of the column projector *)



(** ** Moving the particles and the grid together *)

Lemma span_shift c d hh k_rad cmin pixwidth pixcount :
  span_lo (c + d) hh k_rad (cmin + d) pixwidth pixcount
  = span_lo c hh k_rad cmin pixwidth pixcount
  /\ span_hi (c + d) hh k_rad (cmin + d) pixwidth pixcount
     = span_hi c hh k_rad cmin pixwidth pixcount.
Proof.
  unfold span_lo, span_hi. split.
  - replace (c + d - k_rad * hh - (cmin + d)) with (c - k_rad * hh - cmin)
      by ring.
    reflexivity.
  - replace (c + d + k_rad * hh - (cmin + d)) with (c + k_rad * hh - cmin)
      by ring.
    reflexivity.
Qed.

Lemma center_shift c d cmin pixwidth k :
  pix_center (cmin + d) pixwidth k - (c + d) = pix_center cmin pixwidth k - c.
Proof. unfold pix_center. ring. Qed.

Lemma stamp_2d_shift wfunc k_rad xmin ymin pixwidthx pixwidthy
      pixcountx pixcounty t xx yy m rho hh dx dy j i :
  stamp_at (stamp_2d wfunc k_rad (xmin + dx) (ymin + dy) pixwidthx pixwidthy
                     pixcountx pixcounty t (xx + dx) (yy + dy) m rho hh) j i
  = stamp_at (stamp_2d wfunc k_rad xmin ymin pixwidthx pixwidthy
                       pixcountx pixcounty t xx yy m rho hh) j i.
Proof.
  unfold stamp_at, stamp_2d. cbn [jlo jhi ilo ihi val].
  destruct (span_shift xx dx hh k_rad xmin pixwidthx pixcountx) as [-> ->].
  destruct (span_shift yy dy hh k_rad ymin pixwidthy pixcounty) as [-> ->].
  now rewrite !center_shift.
Qed.

Lemma stamp_3d_cross_shift wfunc zslice k_rad xmin ymin pixwidthx pixwidthy
      pixcountx pixcounty t xx yy zz m rho hh dx dy j i :
  stamp_at (stamp_3d_cross wfunc zslice k_rad pixwidthx pixwidthy
                           (xmin + dx) (ymin + dy) pixcountx pixcounty
                           t (xx + dx) (yy + dy) zz m rho hh) j i
  = stamp_at (stamp_3d_cross wfunc zslice k_rad pixwidthx pixwidthy
                             xmin ymin pixcountx pixcounty
                             t xx yy zz m rho hh) j i.
Proof.
  unfold stamp_at, stamp_3d_cross. cbn [jlo jhi ilo ihi val].
  destruct (span_shift xx dx hh k_rad xmin pixwidthx pixcountx) as [-> ->].
  destruct (span_shift yy dy hh k_rad ymin pixwidthy pixcounty) as [-> ->].
  now rewrite !center_shift.
Qed.

Lemma shift_row_x x y dx dy row : shift_row x y dx dy row x = row x + dx.
Proof. unfold shift_row. now rewrite String.eqb_refl. Qed.

Lemma shift_row_y x y dx dy row :
  x <> y -> shift_row x y dx dy row y = row y + dy.
Proof.
  intros H. unfold shift_row.
  replace (String.eqb y x) with false
    by (symmetry; apply String.eqb_neq; congruence).
  now rewrite String.eqb_refl.
Qed.

Lemma shift_row_other x y dx dy row label :
  label <> x -> label <> y -> shift_row x y dx dy row label = row label.
Proof.
  intros Hx Hy. unfold shift_row.
  replace (String.eqb label x) with false
    by (symmetry; now apply String.eqb_neq).
  replace (String.eqb label y) with false
    by (symmetry; now apply String.eqb_neq).
  reflexivity.
Qed.

Lemma Rsum_map_ext {A} (f g : A -> R) l :
  (forall a, In a l -> f a = g a) -> Rsum (map f l) = Rsum (map g l).
Proof. intros H. f_equal. now apply map_ext_in. Qed.

(** Moving every particle and the origin of the grid by the same
    displacement in the plane of the image changes neither the image of
    [interpolate_2d] nor that of [interpolate_3d_cross]; the columns [x] and
    [y] are two columns, and none of them is the target, the depth or one of
    ["m"], ["rho"] and ["h"]. *)
Theorem translation_invariance
        (data : SarracenDataFrame) (target x y z : string) (kernel : Kernel)
        (dx dy zslice pixwidthx pixwidthy xmin ymin : R)
        (pixcountx pixcounty : Z) :
  x <> y ->
  (forall label,
      In label [target; z; "m"%string; "rho"%string; "h"%string] ->
      label <> x /\ label <> y) ->
  interpolate_2d (map (shift_row x y dx dy) data) target x y kernel
                 pixwidthx pixwidthy (xmin + dx) (ymin + dy)
                 pixcountx pixcounty
  = interpolate_2d data target x y kernel pixwidthx pixwidthy xmin ymin
                   pixcountx pixcounty
  /\ interpolate_3d_cross (map (shift_row x y dx dy) data) target zslice
                          x y z kernel pixwidthx pixwidthy
                          (xmin + dx) (ymin + dy) pixcountx pixcounty
     = interpolate_3d_cross data target zslice x y z kernel
                            pixwidthx pixwidthy xmin ymin
                            pixcountx pixcounty.
Proof.
  intros Hxy Hl.
  assert (Ht : target <> x /\ target <> y) by (apply Hl; simpl; tauto).
  assert (Hz : z <> x /\ z <> y) by (apply Hl; simpl; tauto).
  assert (Hm : "m"%string <> x /\ "m"%string <> y) by (apply Hl; simpl; tauto).
  assert (Hr : "rho"%string <> x /\ "rho"%string <> y)
    by (apply Hl; simpl; tauto).
  assert (Hh : "h"%string <> x /\ "h"%string <> y) by (apply Hl; simpl; tauto).
  destruct (Rle_dec pixwidthx 0) as [Bx | Vx];
    [split; [unfold interpolate_2d | unfold interpolate_3d_cross];
     now replace (Rleb pixwidthx 0) with true
       by (symmetry; now apply Rleb_true) |].
  destruct (Rle_dec pixwidthy 0) as [By | Vy];
    [split; [unfold interpolate_2d | unfold interpolate_3d_cross];
     replace (Rleb pixwidthy 0) with true
       by (symmetry; now apply Rleb_true);
     now destruct (Rleb pixwidthx 0) |].
  destruct (Z_le_gt_dec pixcountx 0) as [Bcx | Vcx];
    [split; [unfold interpolate_2d | unfold interpolate_3d_cross];
     replace (pixcountx <=? 0)%Z with true
       by (symmetry; now apply Z.leb_le);
     now destruct (Rleb pixwidthx 0), (Rleb pixwidthy 0) |].
  destruct (Z_le_gt_dec pixcounty 0) as [Bcy | Vcy];
    [split; [unfold interpolate_2d | unfold interpolate_3d_cross];
     replace (pixcounty <=? 0)%Z with true
       by (symmetry; now apply Z.leb_le);
     now destruct (Rleb pixwidthx 0), (Rleb pixwidthy 0),
       (pixcountx <=? 0)%Z |].
  assert (Wx : 0 < pixwidthx) by lra. assert (Wy : 0 < pixwidthy) by lra.
  assert (Cx : (0 < pixcountx)%Z) by lia.
  assert (Cy : (0 < pixcounty)%Z) by lia.
  split.
  - destruct (interpolate_2d_pixels
                (map (shift_row x y dx dy) data) target x y kernel
                pixwidthx pixwidthy (xmin + dx) (ymin + dy)
                pixcountx pixcounty Wx Wy Cx Cy)
      as [moved [-> [Hs Hp]]].
    destruct (interpolate_2d_pixels
                data target x y kernel pixwidthx pixwidthy xmin ymin
                pixcountx pixcounty Wx Wy Cx Cy)
      as [image [-> [Hs' Hp']]].
    f_equal. apply (image_ext pixcounty pixcountx); try assumption.
    intros j i Hj Hi. rewrite Hp, Hp' by assumption.
    rewrite map_map. apply Rsum_map_ext. intros row _.
    unfold row_stamp_2d.
    rewrite shift_row_x, (shift_row_y x y) by exact Hxy.
    rewrite !shift_row_other by tauto.
    apply stamp_2d_shift.
  - destruct (interpolate_3d_cross_pixels
                (map (shift_row x y dx dy) data) target zslice x y z kernel
                pixwidthx pixwidthy (xmin + dx) (ymin + dy)
                pixcountx pixcounty Wx Wy Cx Cy)
      as [moved [-> [Hs Hp]]].
    destruct (interpolate_3d_cross_pixels
                data target zslice x y z kernel pixwidthx pixwidthy xmin ymin
                pixcountx pixcounty Wx Wy Cx Cy)
      as [image [-> [Hs' Hp']]].
    f_equal. apply (image_ext pixcounty pixcountx); try assumption.
    intros j i Hj Hi. rewrite Hp, Hp' by assumption.
    rewrite map_map. apply Rsum_map_ext. intros row _.
    unfold row_keep_3d_cross, row_stamp_3d_cross.
    rewrite shift_row_x, (shift_row_y x y) by exact Hxy.
    rewrite !shift_row_other by tauto.
    destruct (keep_3d_cross _ _ _ _); [| reflexivity].
    apply stamp_3d_cross_shift.
Qed.

Lemma translation_invariance_witness :
  interpolate_2d (map (shift_row "x" "y" 3 (- 1)) [example_row 0.5 0.5 0])
                 "rho" "x" "y" CubicSplineKernel.class 1 1 (0 + 3) (0 + - 1)
                 2 1
  = interpolate_2d [example_row 0.5 0.5 0] "rho" "x" "y"
                   CubicSplineKernel.class 1 1 0 0 2 1
  /\ interpolate_3d_cross
       (map (shift_row "x" "y" 3 (- 1)) [example_row 0.5 0.5 0])
       "rho" 0 "x" "y" "z" CubicSplineKernel.class 1 1 (0 + 3) (0 + - 1) 2 1
     = interpolate_3d_cross [example_row 0.5 0.5 0] "rho" 0 "x" "y" "z"
                            CubicSplineKernel.class 1 1 0 0 2 1.
Proof.
  apply (translation_invariance [example_row 0.5 0.5 0] "rho" "x" "y" "z"
                                CubicSplineKernel.class 3 (- 1) 0 1 1 0 0 2 1).
  - discriminate.
  - intros label Hl. simpl in Hl.
    destruct Hl as [<- | [<- | [<- | [<- | [<- | []]]]]];
      split; discriminate.
Defined.

(** ** Exchanging the axes *)





(** ** Images that are nowhere negative *)




